(** * MurphyEventScraper: a shallow embedding of [murphy_event_scraper.py]

    The script fetches an event listing, walks the parsed HTML tree with
    BeautifulSoup, normalises each timestamp to America/Chicago and writes
    one calendar file per event.  This file embeds the script as Rocq
    functions and proves the properties its specification states.

    What comes from outside the repository is kept apart from the code:
    - the Unicode character tables of the interpreter ([UnicodeDB]);
    - [dateutil.parser.parse] and the tz database behind [pytz] ([DateLib]);
    - the flavour of [os.path] ([Platform]);
    - the network and the disk ([environment]).
    The tree navigation of BeautifulSoup ([find_all], [find], [get_text],
    [select]) is modelled on the parsed tree.  A call that can raise
    returns a [result]; the [try] blocks of the script catch the classes
    they name and let the others through.  Standard output is taken to
    accept what is printed: the calls to [print] do not raise and are left
    out, no property below is about the console. *)

From Stdlib Require Import NArith ZArith String Ascii.
From stdpp Require Import base option list sorting gmap.

Local Open Scope N_scope.

(** ** Python strings *)

(** A Python [str] is a sequence of Unicode code points. *)
Abbreviation pystr := (list N).

(** Literals of the script, written as Rocq strings of ASCII characters. *)
Definition str (s : string) : pystr := N_of_ascii <$> list_ascii_of_string s.
Arguments str : simpl never.

Definition hyphen : N := 45.
Definition underscore : N := 95.

(** [s.startswith(prefix)] *)
Fixpoint startswith (pre s : pystr) : bool :=
  match pre, s with
  | [], _ => true
  | _ :: _, [] => false
  | a :: pre', b :: s' => if decide (a = b) then startswith pre' s' else false
  end.

(** [s.lstrip(...)]: drop the leading characters that are in the class. *)
Fixpoint lstrip_with (p : N → bool) (s : pystr) : pystr :=
  match s with
  | [] => []
  | c :: s' => if p c then lstrip_with p s' else s
  end.

(** [s.rstrip(...)]: drop the trailing characters that are in the class. *)
Fixpoint rstrip_with (p : N → bool) (s : pystr) : pystr :=
  match s with
  | [] => []
  | c :: s' =>
      match rstrip_with p s' with
      | [] => if p c then [] else [c]
      | r => c :: r
      end
  end.

(** [s.rstrip(chars)] with an explicit character set. *)
Definition rstrip_chars (chars s : pystr) : pystr :=
  rstrip_with (λ c, bool_decide (c ∈ chars)) s.

(** [re.sub('[class]', '', s)]: every character of the class is removed. *)
Definition re_sub_delete (cls : N → bool) (s : pystr) : pystr :=
  List.filter (λ c, negb (cls c)) s.

(** [re.sub('[class]+', repl, s)]: every maximal run of characters of the
    class is replaced by [repl].  [in_run] tells that the previous character
    was already part of the run being replaced. *)
Fixpoint re_sub_runs (cls : N → bool) (repl : pystr) (in_run : bool)
    (s : pystr) : pystr :=
  match s with
  | [] => []
  | c :: s' =>
      if cls c then
        (if in_run then [] else repl) ++ re_sub_runs cls repl true s'
      else c :: re_sub_runs cls repl false s'
  end.

(** ** The character tables of the interpreter

    [str.isalnum] and [str.isspace] on one code point; [\w] and [\s] of the
    [re] module and [str.strip()] are defined from them. *)
Class UnicodeDB := {
  isalnum : N → bool;
  isspace : N → bool
}.

(** The tables restricted to ASCII, where they are
    [0-9A-Za-z] and tab, LF, VT, FF, CR, FS, GS, RS, US, space. *)
Definition ascii_isalnum (c : N) : bool :=
  ((48 <=? c) && (c <=? 57)) || ((65 <=? c) && (c <=? 90))
  || ((97 <=? c) && (c <=? 122)).

Definition ascii_isspace (c : N) : bool :=
  ((9 <=? c) && (c <=? 13)) || ((28 <=? c) && (c <=? 32)).

Definition ascii_db : UnicodeDB :=
  {| isalnum := ascii_isalnum; isspace := ascii_isspace |}.

Section Strings.
Context {U : UnicodeDB}.

(** [\w]: alphanumeric or underscore. *)
Definition re_word (c : N) : bool := isalnum c || bool_decide (c = underscore).

(** [s.strip()] *)
Definition strip (s : pystr) : pystr := rstrip_with isspace (lstrip_with isspace s).

(** The class [[^\w\s-]] of line 26. *)
Definition invalid_char (c : N) : bool :=
  negb (re_word c || isspace c || bool_decide (c = hyphen)).

(** The class [[-\s]] of line 27. *)
Definition separator (c : N) : bool :=
  bool_decide (c = hyphen) || isspace c.

(** Lines 26-27 of [generate_ics_file]. *)
Definition filename_base (title : pystr) : pystr :=
  let filename_base := strip (re_sub_delete invalid_char title) in
  re_sub_runs separator (str "-") false filename_base.

(** Line 28: [f"{filename_base[:50]}.ics"] *)
Definition ics_filename (title : pystr) : pystr :=
  take 50 (filename_base title) ++ str ".ics".

(** The characters a file name is made of. *)
Definition word_or_hyphen (c : N) : Prop :=
  isalnum c = true ∨ c = underscore ∨ c = hyphen.

(** The narrower class the specification names. *)
Definition alnum_or_hyphen (c : N) : Prop :=
  isalnum c = true ∨ c = hyphen.
End Strings.

(** ** The parsed document

    What [BeautifulSoup(response.content, 'html.parser')] builds: text nodes
    and tags.  bs4 keeps the [class] attribute of a tag as the list of its
    tokens and the other attributes read here ([href], [datetime]) as
    strings, in a dict. *)
#[warnings="-register-all"]
Inductive node :=
| NavigableString (text : pystr)
| Tag (name : pystr) (attrs : gmap pystr pystr) (classes : list pystr)
      (contents : list node).

Definition tag_name (n : node) : pystr :=
  match n with Tag name _ _ _ => name | NavigableString _ => [] end.

Definition tag_attrs (n : node) : gmap pystr pystr :=
  match n with Tag _ attrs _ _ => attrs | NavigableString _ => ∅ end.

Definition tag_classes (n : node) : list pystr :=
  match n with Tag _ _ classes _ => classes | NavigableString _ => [] end.

Definition is_tag (n : node) : bool :=
  match n with Tag _ _ _ _ => true | NavigableString _ => false end.

(** [tag.descendants]: every node below the tag, in document order. *)
Fixpoint descendants (n : node) : list node :=
  match n with
  | NavigableString _ => []
  | Tag _ _ _ contents => flat_map (λ c, c :: descendants c) contents
  end.

(** The filter of [find_all(name, class_=c)]: a tag called [name] that, when
    [c] is given, carries [c] among the tokens of its [class] attribute
    (for a [c] without spaces, as here, bs4 asks no more). *)
Definition matches (name : pystr) (class_ : option pystr) (n : node) : bool :=
  is_tag n && bool_decide (tag_name n = name)
  && match class_ with
     | Some c => bool_decide (c ∈ tag_classes n)
     | None => true
     end.

(** [tag.find_all(name, class_=...)] *)
Definition find_all (name : pystr) (class_ : option pystr) (root : node)
    : list node :=
  List.filter (matches name class_) (descendants root).

(** [tag.find(name, class_=...)]: the first match, or [None]. *)
Definition find (name : pystr) (class_ : option pystr) (root : node)
    : option node :=
  head (find_all name class_ root).

(** [tag.text]: the text nodes below the tag, concatenated.  A
    [NavigableString] of the model is a string that [.text] counts
    (comments and the like are not part of the tree). *)
Fixpoint get_text (n : node) : pystr :=
  match n with
  | NavigableString text => text
  | Tag _ _ _ contents => flat_map get_text contents
  end.

(** The compound selector [li.pager__item]. *)
Definition is_pager_item (n : node) : bool :=
  bool_decide (tag_name n = str "li")
  && bool_decide (str "pager__item" ∈ tag_classes n).

(** The type selector [a]. *)
Definition is_anchor (n : node) : bool := bool_decide (tag_name n = str "a").

(** [soup.select('li.pager__item a')]: the [a] tags that have an [li] tag of
    class [pager__item] among their ancestors, in document order.
    [inside] tells that such an ancestor has been passed. *)
Fixpoint select_pager_links (inside : bool) (n : node) : list node :=
  match n with
  | NavigableString _ => []
  | Tag _ _ _ contents =>
      (if inside && is_anchor n then [n] else [])
      ++ flat_map (select_pager_links (inside || is_pager_item n)) contents
  end.

(** ** Exceptions

    The classes the script names in its handlers and those that reach it
    from the libraries.  A class stands for its subclasses too
    ([ParserError] is a [ValueError], [IOError] is [OSError]). *)
Inductive exn :=
| ValueError
| TypeError
| OverflowError
| ParserRejectedMarkup
| RequestException
| OSError.

#[global] Instance exn_eq_dec : EqDecision exn.
Proof. solve_decision. Defined.

(** What a call gives: a value, or an exception on its way up. *)
Inductive result (A : Type) :=
| Ok (a : A)
| Raise (e : exn).
Arguments Ok {A} a.
Arguments Raise {A} e.

#[global] Instance result_ret : MRet result := λ A a, Ok a.
#[global] Instance result_bind : MBind result :=
  λ A B f r, match r with Ok a => f a | Raise e => Raise e end.
#[global] Instance result_fmap : FMap result :=
  λ A B f r, match r with Ok a => Ok (f a) | Raise e => Raise e end.

Definition is_Ok {A} (r : result A) : Prop := ∃ a, r = Ok a.

#[global] Instance is_Ok_dec {A} (r : result A) : Decision (is_Ok r).
Proof.
  destruct r as [a|e]; [left; by exists a|right; by intros [a ?]].
Defined.

(** [except (classes)]: whether the handler takes the exception. *)
Definition catches (classes : list exn) (e : exn) : bool :=
  bool_decide (e ∈ classes).

(** ** Dates *)

Record civil_time := {
  year : Z; month : Z; day : Z;
  hour : Z; minute : Z; second : Z; microsecond : Z
}.

(** A zone as attached to a [datetime]: its name and the offset from UTC,
    in minutes, in force at that moment. *)
Record tzinfo := { zone : pystr; utcoffset : Z }.

(** [datetime.datetime]: naive when [tz] is [None], aware otherwise. *)
Record datetime := { civil : civil_time; tz : option tzinfo }.

(** The two libraries behind the timestamps.
    - [dateutil_parse s] is [dateutil.parser.parse(s)] on a given day (the
      fields a string leaves out are taken from the current date).  It
      raises [ParserError], a [ValueError], on a string it cannot read and
      [OverflowError] on a number beyond the range of the platform.  The
      datetime it returns is aware when the string names a zone.
    - [tz_utcoffset z t] is the offset [pytz] resolves for zone [z] at the
      wall-clock time [t] in [localize]; the search for it raises
      [OverflowError] within a day of the first and the last datetime. *)
Class DateLib := {
  dateutil_parse : pystr → result datetime;
  tz_utcoffset : pystr → civil_time → result Z
}.

Section Dates.
Context {D : DateLib}.

(** [pytz.timezone(zone).localize(dt)]: raises [ValueError] on a datetime
    that is already aware; otherwise resolves the offset, keeps the
    wall-clock fields and attaches the zone. *)
Definition localize (zone : pystr) (dt : datetime) : result datetime :=
  match tz dt with
  | Some _ => Raise ValueError
  | None =>
      offset ← tz_utcoffset zone (civil dt);
      Ok {| civil := civil dt;
            tz := Some {| zone := zone; utcoffset := offset |} |}
  end.

Definition central_tz : pystr := str "America/Chicago".

(** Lines 110-114 of [scrape_page]. *)
Definition normalize (datetime_str : pystr) : result datetime :=
  let naive_dt_str := rstrip_chars (str "Zz") datetime_str in
  parsed_naive_datetime ← dateutil_parse naive_dt_str;
  localize central_tz parsed_naive_datetime.
End Dates.

(** ** Events *)

(** The dict appended to [events_on_page] on lines 116-121. *)
Record event := {
  title : pystr;
  link : pystr;
  start_time : datetime;   (* key ['datetime'] *)
  location : pystr
}.

Definition no_title : pystr := str "No Title Found".
Definition no_location : pystr := str "No Location Found".
Definition site_origin : pystr := str "https://murphy.tulane.edu".

(** Lines 79-82: the link built from the [href] of the anchor. *)
Definition resolve_href (href : pystr) : pystr :=
  if startswith (str "/") href then site_origin ++ href else href.

(** Line 58: the containers of a page, one per event. *)
Definition event_containers (soup : node) : list node :=
  find_all (str "div") (Some (str "views-field-title")) soup.

Section Scraping.
Context {U : UnicodeDB} {D : DateLib}.

(** Lines 69-89: title and link of a container. *)
Definition extract_title_link (item : node) : pystr * pystr :=
  match find (str "a") None item with
  | Some link_element =>
      let href := default [] (tag_attrs link_element !! str "href") in
      let link := resolve_href href in
      let title :=
        match find (str "span") (Some (str "font-bold")) link_element with
        | Some title_span => strip (get_text title_span)
        | None => strip (get_text link_element)
        end in
      (title, link)
  | None => (no_title, [])
  end.

(** Lines 71 and 92-94: the [datetime] attribute of the first [time] tag,
    or the empty string. *)
Definition extract_datetime_str (item : node) : pystr :=
  match find (str "time") None item with
  | Some time_tag => default [] (tag_attrs time_tag !! str "datetime")
  | None => []
  end.

(** Lines 72 and 97-99. *)
Definition extract_location (item : node) : pystr :=
  match find (str "span") (Some (str "location")) item with
  | Some location_element => strip (get_text location_element)
  | None => no_location
  end.

(** The event a container yields, when it yields one (lines 116-121). *)
Definition event_of (item : node) (dt : datetime) : event :=
  {| title := (extract_title_link item).1;
     link := (extract_title_link item).2;
     start_time := dt;
     location := extract_location item |}.

(** One turn of the loop of line 68.  The [try] of lines 102-128 appends
    the event of the container or, without a timestamp, nothing; its
    handler takes a [ValueError] or a [TypeError] and leaves
    [events_on_page] as it is; any other exception goes up. *)
Definition scrape_item (events_on_page : list event) (item : node)
    : result (list event) :=
  let '(title, link) := extract_title_link item in
  let datetime_str := extract_datetime_str item in
  let location := extract_location item in
  match
    match datetime_str with
    | [] => Ok events_on_page
    | _ :: _ =>
        aware_datetime ← normalize datetime_str;
        Ok (events_on_page ++
              [ {| title := title; link := link;
                   start_time := aware_datetime; location := location |} ])
    end
  with
  | Ok events => Ok events
  | Raise e =>
      if catches [ValueError; TypeError] e then Ok events_on_page else Raise e
  end.

(** The loop of line 68: it stops at the first exception that goes up. *)
Fixpoint scrape_items (events_on_page : list event) (items : list node)
    : result (list event) :=
  match items with
  | [] => Ok events_on_page
  | item :: rest =>
      events ← scrape_item events_on_page item;
      scrape_items events rest
  end.

(** Lines 58-130 of [scrape_page]: from the parsed page to its events. *)
Definition scrape_soup (soup : node) : result (list event) :=
  match event_containers soup with
  | [] => Ok []
  | _ :: _ => scrape_items [] (event_containers soup)
  end.
End Scraping.

(** ** The outside world *)

(** How lines 37-38 end: the calendar is written and the file closed; or
    [open(path, 'w')] raises, and the path is left as it was; or [open]
    succeeds, which empties the file, and an exception is raised before
    the calendar is written in full.  The exception is an [OSError] (the
    disk is full, [events] is a regular file, ...) or of another class:
    a [UnicodeEncodeError], which is a [ValueError], when the name cannot
    be encoded for the file system or when the text to be written holds a
    lone surrogate (a title with [&#xD800;] in it). *)
Inductive write_outcome :=
| Written
| OpenRaises (e : exn)
| WriteRaises (e : exn).

(** The exception the two lines raise, if any. *)
Definition raised (outcome : write_outcome) : result () :=
  match outcome with
  | Written => Ok ()
  | OpenRaises e | WriteRaises e => Raise e
  end.

(** Whether that exception, if any, is an [IOError], the class the handler
    of line 40 takes. *)
Definition handled (outcome : write_outcome) : bool :=
  match raised outcome with
  | Ok _ => true
  | Raise e => catches [OSError] e
  end.

(** The network and the disk, as the run meets them.
    - [http_get n url]: the [n]-th HTTP request of the run.  [None]:
      [requests.get] or [raise_for_status] raised a [RequestException],
      which the handler after them takes.  [Some (Ok tree)]: the request
      succeeded and [BeautifulSoup(response.content, 'html.parser')] made
      [tree] of the body.  [Some (Raise e)]: an exception the handler does
      not take went up, from the request or from [BeautifulSoup] on markup
      that the parser rejects.
    - [make_dirs n path]: whether [os.makedirs(path)] succeeds after [n]
      files have been opened ([false]: it raises [OSError]).
    - [open_write n path]: how the [n]-th writing of a file ends. *)
Record environment := {
  http_get : nat → pystr → option (result node);
  make_dirs : nat → pystr → bool;
  open_write : nat → pystr → write_outcome
}.

(** One single-event calendar, as written to a file. *)
Record calendar := {
  name : pystr;
  begin : datetime;
  cal_location : pystr;
  description : option pystr
}.

(** What a path that is no directory holds: a calendar written in full;
    what is left of a file that [open] emptied and whose write did not
    finish (a part of the calendar at most); or anything else, there
    before the run. *)
Inductive file_content :=
| Complete (c : calendar)
| Truncated
| Other (data : pystr).

(** What the run has done so far. *)
Record world := {
  requested : list pystr;            (* URLs requested, oldest first *)
  opened : list pystr;               (* paths [open] was called on, oldest first *)
  dirs : gset pystr;                 (* directories that exist *)
  files : gmap pystr file_content    (* the other paths that exist *)
}.

Definition fresh_world : world :=
  {| requested := []; opened := []; dirs := ∅; files := ∅ |}.

(** The world after one more request. *)
Definition log_request (url : pystr) (w : world) : world :=
  {| requested := requested w ++ [url]; opened := opened w;
     dirs := dirs w; files := files w |}.

(** The world after a sequence of requests. *)
Definition log_requests (urls : list pystr) (w : world) : world :=
  foldl (λ w url, log_request url w) w urls.

(** [requests.get(url)] followed by [raise_for_status()]; the content that
    comes back stands for the parse of it. *)
Definition requests_get (env : environment) (url : pystr) (w : world)
    : option (result node) * world :=
  (http_get env (length (requested w)) url, log_request url w).

(** [os.path.exists(path)]: a directory or any other file. *)
Definition path_exists (path : pystr) (w : world) : bool :=
  bool_decide (path ∈ dirs w) || bool_decide (is_Some (files w !! path)).

(** The world after [os.makedirs(path)] succeeded. *)
Definition add_dir (path : pystr) (w : world) : world :=
  {| requested := requested w; opened := opened w;
     dirs := dirs w ∪ {[ path ]}; files := files w |}.

(** The two flavours of [os.path]. *)
Inductive os_family := Posix | Windows.

Class Platform := { family : os_family }.

Definition slash : N := 47.
Definition backslash : N := 92.
Definition colon : N := 58.

(** [os.path.join(a, b)] for a relative [a] that is not empty, has no drive
    and no trailing separator, as ['events'] is.  [posixpath] returns [b]
    alone when [b] begins with [/]; [ntpath] does so when [b] begins with
    either separator or carries a drive (a colon in second place). *)
Definition path_join `{Platform} (a b : pystr) : pystr :=
  match family with
  | Posix => if startswith [slash] b then b else a ++ [slash] ++ b
  | Windows =>
      if startswith [slash] b || startswith [backslash] b
         || bool_decide (b !! 1%nat = Some colon)
      then b else a ++ [backslash] ++ b
  end.

Definition base_url : pystr :=
  str "https://murphy.tulane.edu/events/upcoming-events".

(** [sorted] on strings: by code point, a proper prefix first. *)
Fixpoint str_leb (a b : pystr) : bool :=
  match a, b with
  | [], _ => true
  | _ :: _, [] => false
  | x :: a', y :: b' => if decide (x = y) then str_leb a' b' else x <? y
  end.

Definition str_le (a b : pystr) : Prop := str_leb a b = true.

#[global] Instance str_le_dec a b : Decision (str_le a b).
Proof. unfold str_le. apply _. Defined.

(** One turn of the loop of line 157. *)
Definition add_page_link (page_links : gset pystr) (link : node) : gset pystr :=
  match tag_attrs link !! str "href" with
  | Some href =>
      if negb (bool_decide (href = [])) && startswith (str "?page=") href
      then page_links ∪ {[ base_url ++ href ]}
      else page_links
  | None => page_links
  end.

(** Lines 155-161 of [main]: the set of further pages. *)
Definition page_links (soup : node) : gset pystr :=
  let pager_items := select_pager_links false soup in
  foldl add_page_link ∅ pager_items.

(** Lines 11-22 of [generate_ics_file]: the calendar built for an event. *)
Definition calendar_of (event_details : event) : calendar :=
  {| name := title event_details;
     begin := start_time event_details;
     cal_location := location event_details;
     description :=
       match link event_details with
       | [] => None
       | _ :: _ => Some (str "For more details, visit: " ++ link event_details)
       end |}.

(** What a list of outcomes gives when they are met in turn: the values
    put end to end, or the first exception. *)
Fixpoint gather {A} (outcomes : list (result (list A))) : result (list A) :=
  match outcomes with
  | [] => Ok []
  | outcome :: rest => l ← outcome; ls ← gather rest; Ok (l ++ ls)
  end.

(** How many of the outcomes are met: all of them, or those up to the
    first exception. *)
Fixpoint reached {A} (outcomes : list (result A)) : nat :=
  match outcomes with
  | [] => 0
  | Ok _ :: rest => S (reached rest)
  | Raise _ :: _ => 1
  end.

Section Run.
Context {U : UnicodeDB} {D : DateLib} {P : Platform}.
Variable env : environment.

(** Lines 26-34: the path of the calendar file of an event. *)
Definition event_path (event_details : event) : pystr :=
  let filename := ics_filename (title event_details) in
  path_join (str "events") filename.

(** [scrape_page(url)]: the [try] of lines 47-52 turns a failed request
    into an empty list; the parse of line 54 is outside of it. *)
Definition scrape_page (url : pystr) (w : world)
    : result (list event) * world :=
  match requests_get env url w with
  | (None, w') => (Ok [], w')
  | (Some content, w') => (soup ← content; scrape_soup soup, w')
  end.

(** The world after lines 37-38, however they end. *)
Definition after_write (filepath : pystr) (c : calendar) (w : world) : world :=
  {| requested := requested w;
     opened := opened w ++ [filepath];
     dirs := dirs w;
     files :=
       match open_write env (length (opened w)) filepath with
       | Written => <[filepath := Complete c]> (files w)
       | OpenRaises _ => files w
       | WriteRaises _ => <[filepath := Truncated]> (files w)
       end |}.

(** Lines 36-41: the [try] around [open] and the write; its handler takes
    an [IOError], which is the class [OSError], and lets any other
    exception go up. *)
Definition write_file (filepath : pystr) (c : calendar) (w : world)
    : result () * world :=
  (match raised (open_write env (length (opened w)) filepath) with
   | Ok _ => Ok ()
   | Raise e => if catches [OSError] e then Ok () else Raise e
   end,
   after_write filepath c w).

(** [generate_ics_file(event_details)]: [os.makedirs] of line 32 is
    outside the [try], its [OSError] goes up; so does what the handler of
    line 40 does not take. *)
Definition generate_ics_file (event_details : event) (w : world)
    : result () * world :=
  let c := calendar_of event_details in
  let made :=
    if path_exists (str "events") w then Ok w
    else if make_dirs env (length (opened w)) (str "events")
         then Ok (add_dir (str "events") w)
         else Raise OSError in
  match made with
  | Raise e => (Raise e, w)
  | Ok w' => write_file (event_path event_details) c w'
  end.

(** The world once line 32 is passed: [events] was there, or has been
    made. *)
Definition ensure_dir (w : world) : world :=
  if path_exists (str "events") w then w else add_dir (str "events") w.

(** The world after the files of the events have been written in turn. *)
Definition write_all (all_events : list event) (w : world) : world :=
  foldl (λ w event, after_write (event_path event) (calendar_of event) w)
    w all_events.

(** Lines 180-181: the loop over the events. *)
Fixpoint generate_all (all_events : list event) (w : world)
    : result () * world :=
  match all_events with
  | [] => (Ok (), w)
  | event :: rest =>
      match generate_ics_file event w with
      | (Ok _, w') => generate_all rest w'
      | (Raise e, w') => (Raise e, w')
      end
  end.

(** Lines 166-168: the loop over the sorted page links. *)
Fixpoint scrape_pages (pages : list pystr) (all_events : list event)
    (w : world) : result (list event) * world :=
  match pages with
  | [] => (Ok all_events, w)
  | page_url :: rest =>
      match scrape_page page_url w with
      | (Ok evs, w') => scrape_pages rest (all_events ++ evs) w'
      | (Raise e, w') => (Raise e, w')
      end
  end.

(** [main()]: how the run ends, with the events gathered when it ends
    without an exception (none when it stops on line 145 or 176), and the
    world it leaves. *)
Definition main (w : world) : result (list event) * world :=
  match requests_get env base_url w with
  | (None, w1) => (Ok [], w1)
  | (Some (Raise e), w1) => (Raise e, w1)
  | (Some (Ok soup), w1) =>
      match scrape_page base_url w1 with
      | (Raise e, w2) => (Raise e, w2)
      | (Ok evs, w2) =>
          let all_events := [] ++ evs in
          let page_links := page_links soup in
          match
            if decide (page_links = ∅) then (Ok all_events, w2)
            else scrape_pages (merge_sort str_le (elements page_links))
                   all_events w2
          with
          | (Raise e, w3) => (Raise e, w3)
          | (Ok [], w3) => (Ok [], w3)
          | (Ok all_events, w3) =>
              match generate_all all_events w3 with
              | (Ok _, w4) => (Ok all_events, w4)
              | (Raise e, w4) => (Raise e, w4)
              end
          end
      end
  end.

(** What request number [n] of the run yields when it asks for [url]
    inside [scrape_page]. *)
Definition page_outcome (n : nat) (url : pystr) : result (list event) :=
  match http_get env n url with
  | None => Ok []
  | Some content => soup ← content; scrape_soup soup
  end.

(** The outcomes of the requests that follow request number [n], for the
    given URLs in turn. *)
Definition page_outcomes (n : nat) (urls : list pystr)
    : list (result (list event)) :=
  imap (λ i url, page_outcome (S n + i) url) urls.
End Run.

(** ** Reference instances of the libraries

    Used to run the script on concrete pages.  [iso_parse] reads the
    timestamps of the form [YYYY-MM-DDTHH:MM:SS], as [dateutil] does, and
    rejects every other string ([dateutil] reads more; the examples below
    use the form above and the empty string only).  [us_central_offset]
    follows the rule in force in the United States since 2007: daylight
    time from the second Sunday of March to the first Sunday of November,
    with the choices of [localize(is_dst=False)] in the two hours that do
    not exist or exist twice; on the first and on the last day of the
    calendar of [datetime] the search of [pytz], which looks a day back
    and a day ahead, raises [OverflowError]. *)

Definition digit (c : N) : option Z :=
  if (48 <=? c) && (c <=? 57) then Some (Z.of_N (c - 48)) else None.

Definition two_digits (a b : N) : option Z :=
  x ← digit a; y ← digit b; Some (10 * x + y)%Z.

Definition is_leap (y : Z) : bool :=
  ((y mod 4 =? 0) && negb (y mod 100 =? 0) || (y mod 400 =? 0))%Z.

Definition days_in_month (y m : Z) : Z :=
  (if m =? 2 then (if is_leap y then 29 else 28)
   else if (m =? 4) || (m =? 6) || (m =? 9) || (m =? 11) then 30 else 31)%Z.

Definition iso_fields (s : pystr) : option datetime :=
  match s with
  | [y1; y2; y3; y4; d1; m1; m2; d2; a1; a2; t; h1; h2; c1; n1; n2; c2; s1; s2] =>
      yh ← two_digits y1 y2; yl ← two_digits y3 y4;
      mo ← two_digits m1 m2; da ← two_digits a1 a2;
      ho ← two_digits h1 h2; mi ← two_digits n1 n2; se ← two_digits s1 s2;
      let ye := (100 * yh + yl)%Z in
      if bool_decide (d1 = 45 ∧ d2 = 45 ∧ t = 84 ∧ c1 = 58 ∧ c2 = 58)
         && (1 <=? ye)%Z && (1 <=? mo)%Z && (mo <=? 12)%Z
         && (1 <=? da)%Z && (da <=? days_in_month ye mo)%Z
         && (ho <? 24)%Z && (mi <? 60)%Z && (se <? 60)%Z
      then Some {| civil := {| year := ye; month := mo; day := da;
                               hour := ho; minute := mi; second := se;
                               microsecond := 0 |};
                   tz := None |}
      else None
  | _ => None
  end.

Definition iso_parse (s : pystr) : result datetime :=
  match iso_fields s with
  | Some dt => Ok dt
  | None => Raise ValueError
  end.

(** Days since 1970-01-01 of a date of the proleptic Gregorian calendar. *)
Definition days_from_civil (y m d : Z) : Z :=
  (let y' := if m <=? 2 then y - 1 else y in
   let era := y' / 400 in
   let yoe := y' - era * 400 in
   let doy := (153 * (if m >? 2 then m - 3 else m + 9) + 2) / 5 + d - 1 in
   let doe := yoe * 365 + yoe / 4 - yoe / 100 + doy in
   era * 146097 + doe - 719468)%Z.

(** Day of the week, Sunday being 0. *)
Definition weekday (y m d : Z) : Z := ((days_from_civil y m d + 4) mod 7)%Z.

(** The first Sunday on or after day [d] of month [m]. *)
Definition sunday_from (y m d : Z) : Z := (d + (7 - weekday y m d) mod 7)%Z.

Definition us_central_rule (t : civil_time) : Z :=
  (let start := sunday_from (year t) 3 8 in
   let stop := sunday_from (year t) 11 1 in
   let after_start :=
     (3 <? month t) || ((month t =? 3) &&
       ((start <? day t) || ((day t =? start) && (3 <=? hour t)))) in
   let before_stop :=
     (month t <? 11) || ((month t =? 11) &&
       ((day t <? stop) || ((day t =? stop) && (hour t <? 1)))) in
   if after_start && before_stop then -300 else -360)%Z.

(** The first and the last day [datetime] can hold. *)
Definition at_calendar_end (t : civil_time) : bool :=
  ((year t =? 1) && (month t =? 1) && (day t =? 1)
   || (year t =? 9999) && (month t =? 12) && (day t =? 31))%Z.

Definition us_central_offset (t : civil_time) : result Z :=
  if at_calendar_end t then Raise OverflowError else Ok (us_central_rule t).

Definition iso_datelib : DateLib :=
  {| dateutil_parse := iso_parse; tz_utcoffset := λ _, us_central_offset |}.

(** [dateutil] reads a trailing [+00:00] as the zone and returns an aware
    datetime.  [iso_offset_parse] does so for the timestamps of the form
    [YYYY-MM-DDTHH:MM:SS+00:00] and is [iso_parse] otherwise. *)
Definition iso_offset_parse (s : pystr) : result datetime :=
  if decide (drop 19 s = str "+00:00") then
    naive ← iso_parse (take 19 s);
    Ok {| civil := civil naive;
          tz := Some {| zone := str "UTC"; utcoffset := 0 |} |}
  else iso_parse s.

Definition offset_datelib : DateLib :=
  {| dateutil_parse := iso_offset_parse; tz_utcoffset := λ _, us_central_offset |}.

Definition posix : Platform := {| family := Posix |}.
Definition windows : Platform := {| family := Windows |}.

(** ** Sample pages

    A listing page with a pager, and the two pages it links to. *)

Definition text_tag (name : pystr) (classes : list pystr) (text : pystr) : node :=
  Tag name ∅ classes [NavigableString text].

Definition time_tag_of (stamp : pystr) : node :=
  Tag (str "time") {[ str "datetime" := stamp ]} [] [NavigableString (str "when")].

Definition container (children : list node) : node :=
  Tag (str "div") ∅ [str "views-field-title"] children.

(** Anchor with a relative link and a title span, a timestamp, a location. *)
Definition item_concert : node :=
  container
    [ Tag (str "a") {[ str "href" := str "/events/foo" ]} []
        [ NavigableString (str " Music: ");
          text_tag (str "span") [str "font-bold"] (str " Spring Concert ") ];
      time_tag_of (str "2025-03-10T14:30:00Z");
      text_tag (str "span") [str "location"] (str " Dixon Hall ") ].

(** Anchor with an absolute link and no title span; no location. *)
Definition item_jazz : node :=
  container
    [ Tag (str "a") {[ str "href" := str "https://example.org/jazz" ]} []
        [ NavigableString (str "  Jazz Night ") ];
      time_tag_of (str "2025-01-15T19:00:00") ].

(** No anchor at all. *)
Definition item_anonymous : node :=
  container [ time_tag_of (str "2025-07-04T09:00:00Z") ].

(** No [time] tag. *)
Definition item_undated : node :=
  container
    [ Tag (str "a") {[ str "href" := str "/events/tba" ]} []
        [ text_tag (str "span") [str "font-bold"] (str "To be announced") ] ].

(** A timestamp that is the marker alone: nothing is left to parse. *)
Definition item_marker_only : node :=
  container
    [ Tag (str "a") ∅ [] [ NavigableString (str "Broken") ];
      time_tag_of (str "Z") ].

(** The event [item_concert] stands for. *)
Definition concert_event : event :=
  {| title := str "Spring Concert";
     link := str "https://murphy.tulane.edu/events/foo";
     start_time :=
       {| civil := {| year := 2025; month := 3; day := 10;
                      hour := 14; minute := 30; second := 0;
                      microsecond := 0 |};
          tz := Some {| zone := str "America/Chicago"; utcoffset := -300 |} |};
     location := str "Dixon Hall" |}.

(** The event [item_jazz] stands for: a winter date, on standard time. *)
Definition jazz_event : event :=
  {| title := str "Jazz Night";
     link := str "https://example.org/jazz";
     start_time :=
       {| civil := {| year := 2025; month := 1; day := 15;
                      hour := 19; minute := 0; second := 0;
                      microsecond := 0 |};
          tz := Some {| zone := str "America/Chicago"; utcoffset := -360 |} |};
     location := str "No Location Found" |}.

Definition pager_link (href : pystr) : node :=
  Tag (str "li") ∅ [str "pager__item"]
    [ Tag (str "a") {[ str "href" := href ]} [] [NavigableString (str "page")] ].

Definition document (body : list node) : node :=
  Tag (str "[document]") ∅ [] body.

Definition first_page : node :=
  document
    [ item_concert; item_undated; item_jazz;
      Tag (str "ul") ∅ []
        [ pager_link (str "?page=2"); pager_link (str "?page=1");
          pager_link (str "?page=2"); pager_link (str "/about") ];
      Tag (str "a") {[ str "href" := str "?page=9" ]} [] [] ].

Definition second_page : node := document [ item_marker_only; item_anonymous ].
Definition third_page : node := document [ item_jazz ].
Definition empty_page : node :=
  document [ text_tag (str "p") [] (str "No events.") ].

Definition page_1_url : pystr := base_url ++ str "?page=1".
Definition page_2_url : pystr := base_url ++ str "?page=2".

(** A timestamp on the last day of the calendar: [dateutil] reads it,
    [localize] raises [OverflowError]. *)
Definition item_last_day : node :=
  container
    [ Tag (str "a") {[ str "href" := str "/events/gala" ]} []
        [ NavigableString (str "Gala") ];
      time_tag_of (str "9999-12-31T23:59:59") ].

(** A container whose timestamp carries an offset. *)
Definition item_with_offset : node :=
  container
    [ Tag (str "a") {[ str "href" := str "/events/talk" ]} []
        [ NavigableString (str "Talk") ];
      time_tag_of (str "2025-03-10T19:30:00+00:00") ].

(** A page whose second container has the timestamp of the last day. *)
Definition last_day_page : node :=
  document [ item_concert; item_last_day; item_jazz ].

(** The site serving the three pages. *)
Definition site (url : pystr) : option (result node) :=
  if decide (url = base_url) then Some (Ok first_page)
  else if decide (url = page_1_url) then Some (Ok second_page)
  else if decide (url = page_2_url) then Some (Ok third_page)
  else None.

(** Everything works. *)
Definition env_up : environment :=
  {| http_get := λ _, site;
     make_dirs := λ _ _, true;
     open_write := λ _ _, Written |}.

(** The site does not answer. *)
Definition env_down : environment :=
  {| http_get := λ _ _, None;
     make_dirs := λ _ _, true;
     open_write := λ _ _, Written |}.

(** Request number [k] of the run fails, the others are served. *)
Definition env_fail_at (k : nat) : environment :=
  {| http_get := λ n url, if decide (n = k) then None else site url;
     make_dirs := λ _ _, true;
     open_write := λ _ _, Written |}.

(** The site answers every request with markup that [html.parser]
    rejects, such as [<![foo bar]>]. *)
Definition env_rejected_markup : environment :=
  {| http_get := λ _ _, Some (Raise ParserRejectedMarkup);
     make_dirs := λ _ _, true;
     open_write := λ _ _, Written |}.

(** The site serves the page with the timestamp of the last day. *)
Definition env_last_day : environment :=
  {| http_get := λ _ _, Some (Ok last_day_page);
     make_dirs := λ _ _, true;
     open_write := λ _ _, Written |}.

(** The disk lets the first file be written and is full at the second:
    the file is emptied and the write fails. *)
Definition env_second_write_fails : environment :=
  {| http_get := λ _, site;
     make_dirs := λ _ _, true;
     open_write := λ n _, if decide (n = 1%nat) then WriteRaises OSError
                          else Written |}.

(** The text of the second file cannot be encoded. *)
Definition env_second_write_raises : environment :=
  {| http_get := λ _, site;
     make_dirs := λ _ _, true;
     open_write := λ n _, if decide (n = 1%nat) then WriteRaises ValueError
                          else Written |}.

(** [events] is no directory and cannot be made one: [os.makedirs] fails
    and so does every [open] of a path in it. *)
Definition env_no_directory : environment :=
  {| http_get := λ _, site;
     make_dirs := λ _ _, false;
     open_write := λ _ _, OpenRaises OSError |}.

(** A disk on which [events] is a regular file. *)
Definition world_events_is_file : world :=
  {| requested := []; opened := []; dirs := ∅;
     files := {[ str "events" := Other (str "notes") ]} |}.

(** ** Notions used to state further properties *)

(** No hyphen directly after a hyphen. *)
Fixpoint no_double_hyphen (s : pystr) : Prop :=
  match s with
  | a :: s' =>
      match s' with
      | b :: _ => ¬ (a = hyphen ∧ b = hyphen)
      | [] => True
      end
      ∧ no_double_hyphen s'
  | [] => True
  end.

Section Notions.
Context {U : UnicodeDB} {D : DateLib}.

(** Neither the first nor the last character is whitespace. *)
Definition trimmed (s : pystr) : Prop :=
  (∀ c, head s = Some c → isspace c = false)
  ∧ (∀ c, last s = Some c → isspace c = false).

(** The container reaches line 116: it has a timestamp and the timestamp
    normalises. *)
Definition kept (item : node) : Prop :=
  extract_datetime_str item ≠ []
  ∧ is_Ok (normalize (extract_datetime_str item)).

#[global] Instance kept_dec item : Decision (kept item).
Proof. unfold kept. apply _. Defined.

(** The container is passed without an exception going up: it has no
    timestamp, or the timestamp normalises, or what normalising raises is
    taken by the handler of line 127. *)
Definition passes (item : node) : Prop :=
  extract_datetime_str item = []
  ∨ match normalize (extract_datetime_str item) with
    | Ok _ => True
    | Raise e => catches [ValueError; TypeError] e = true
    end.
End Notions.

(** * Properties *)

(** ** Strings *)

Lemma Forall_lstrip_with (P : N → Prop) p s :
  Forall P s → Forall P (lstrip_with p s).
Proof.
  induction 1 as [|c s Hc Hs IH]; simpl; [constructor|].
  destruct (p c); auto.
Qed.

Lemma Forall_rstrip_with (P : N → Prop) p s :
  Forall P s → Forall P (rstrip_with p s).
Proof.
  induction 1 as [|c s Hc Hs IH]; simpl; [constructor|].
  destruct (rstrip_with p s) as [|r rs].
  - destruct (p c); auto.
  - auto.
Qed.

(** [lstrip] removes a prefix made of characters of the class, and what is
    left does not begin with one. *)
Lemma lstrip_with_split p s :
  ∃ removed,
    s = removed ++ lstrip_with p s
    ∧ Forall (λ c, p c = true) removed
    ∧ (∀ c, head (lstrip_with p s) = Some c → p c = false).
Proof.
  induction s as [|a s (removed & Hs & Hrem & Hhead)]; simpl.
  - exists []. by split; [|split].
  - destruct (p a) eqn:Ea.
    + exists (a :: removed). split; [by rewrite Hs at 1|]. split; [|done].
      by constructor.
    + exists []. split; [done|]. split; [constructor|]. by intros c [= <-].
Qed.

(** [rstrip] removes a suffix made of characters of the class, and what is
    left does not end with one. *)
Lemma rstrip_with_split p s :
  ∃ removed,
    s = rstrip_with p s ++ removed
    ∧ Forall (λ c, p c = true) removed
    ∧ (∀ c, last (rstrip_with p s) = Some c → p c = false).
Proof.
  induction s as [|a s (removed & Hs & Hrem & Hlast)]; simpl.
  - exists []. by split; [|split].
  - destruct (rstrip_with p s) as [|r rs] eqn:E.
    + destruct (p a) eqn:Ea.
      * exists (a :: removed). split; [by rewrite Hs at 1|]. split; [|done].
        by constructor.
      * exists removed. split; [by rewrite Hs at 1|]. split; [done|].
        by intros c [= <-].
    + exists removed. split; [by rewrite Hs at 1|]. split; [done|].
      intros c Hc. apply Hlast. by rewrite last_cons_cons in Hc.
Qed.

(** A trailing character of the class does not change what [rstrip] leaves. *)
Lemma rstrip_with_snoc p s c :
  p c = true → rstrip_with p (s ++ [c]) = rstrip_with p s.
Proof.
  intros Hc. induction s as [|a s IH]; simpl.
  - by rewrite Hc.
  - by rewrite IH.
Qed.

Lemma rstrip_with_idem p s :
  rstrip_with p (rstrip_with p s) = rstrip_with p s.
Proof.
  induction s as [|a s IH]; simpl; [done|].
  destruct (rstrip_with p s) as [|r rs] eqn:E.
  - destruct (p a) eqn:Ea; simpl; [done|]. by rewrite Ea.
  - change (rstrip_with p (a :: r :: rs)) with
      (match rstrip_with p (r :: rs) with
       | [] => if p a then [] else [a]
       | x => a :: x
       end).
    by rewrite IH.
Qed.

Lemma Forall_re_sub_delete cls s :
  Forall (λ c, cls c = false) (re_sub_delete cls s).
Proof.
  unfold re_sub_delete. apply List.Forall_forall. intros c Hc.
  apply List.filter_In in Hc as [_ Hc]. by apply negb_true_iff.
Qed.

Lemma Forall_re_sub_runs (P : N → Prop) cls repl in_run s :
  Forall P repl →
  Forall (λ c, cls c = false → P c) s →
  Forall P (re_sub_runs cls repl in_run s).
Proof.
  intros Hrepl Hs. revert in_run.
  induction Hs as [|c s Hc Hs IH]; intros in_run; simpl; [constructor|].
  destruct (cls c) eqn:E.
  - apply Forall_app. split; [destruct in_run; auto|apply IH].
  - constructor; auto.
Qed.

Section FilenameFacts.
Context {U : UnicodeDB}.

Lemma filename_base_chars t : Forall word_or_hyphen (filename_base t).
Proof.
  unfold filename_base. apply Forall_re_sub_runs.
  - change (str "-") with [hyphen]. constructor; [by right; right|constructor].
  - unfold strip. apply Forall_rstrip_with, Forall_lstrip_with.
    eapply Forall_impl; [apply Forall_re_sub_delete|].
    intros c Hinv Hsep. unfold invalid_char in Hinv. unfold separator in Hsep.
    apply negb_false_iff in Hinv. apply orb_false_iff in Hsep as [Hh Hsp].
    rewrite Hh, Hsp, !orb_false_r in Hinv. unfold re_word in Hinv.
    apply orb_true_iff in Hinv as [?|Hu]; [by left|].
    right; left. by apply bool_decide_eq_true in Hu.
Qed.
End FilenameFacts.

(** C1, as the code has it: the name is the first 50 characters of the
    cleaned title followed by [.ics]; the part before the extension holds
    only alphanumeric characters, underscores and hyphens (an underscore is
    a word character of the regular expression and is kept); the whole name
    is at most 50 characters plus the extension long; and the name is a
    function of the title. *)
Theorem C1_filename_safe `{UnicodeDB} (t : pystr) :
  ∃ stem,
    ics_filename t = stem ++ str ".ics"
    ∧ Forall word_or_hyphen stem
    ∧ (length stem ≤ 50)%nat
    ∧ (length (ics_filename t) ≤ 50 + length (str ".ics"))%nat
    ∧ ∀ t', t' = t → ics_filename t' = ics_filename t.
Proof.
  exists (take 50 (filename_base t)). split; [done|].
  split; [apply Forall_take, filename_base_chars|].
  split; [rewrite length_take; lia|].
  split; [|by intros t' ->].
  unfold ics_filename. rewrite length_app, length_take. lia.
Qed.

(** A title with punctuation, doubled spaces and a hyphen between spaces. *)
Lemma C1_spring_concert :
  ∃ stem,
    ics_filename (U:=ascii_db) (str "  Spring  Concert -- 2025! ")
    = stem ++ str ".ics"
    ∧ stem = str "Spring-Concert-2025"
    ∧ Forall (word_or_hyphen (U:=ascii_db)) stem.
Proof.
  destruct (C1_filename_safe (H:=ascii_db) (str "  Spring  Concert -- 2025! "))
    as (stem & Hname & Hchars & _).
  exists stem. split; [exact Hname|]. split; [|exact Hchars].
  apply (app_inv_tail (str ".ics")). rewrite <- Hname.
  vm_compute. reflexivity.
Defined.

(** C1, as the specification words it, fails: the title [a_b] keeps its
    underscore, which is neither alphanumeric nor a hyphen. *)
Lemma C1_underscore_kept :
  ics_filename (U:=ascii_db) (str "a_b") = str "a_b" ++ str ".ics"
  ∧ ¬ Forall (alnum_or_hyphen (U:=ascii_db)) (str "a_b").
Proof.
  split; [vm_compute; reflexivity|].
  intros HF. apply Forall_cons in HF as [_ HF]. apply Forall_cons in HF as [HF _].
  destruct HF as [HF|HF]; vm_compute in HF; discriminate.
Qed.

(** ** Timestamps *)

Section NormalizeFacts.
Context {D : DateLib}.

Lemma localize_Ok zone dt dt' :
  localize zone dt = Ok dt' →
  tz dt = None
  ∧ civil dt' = civil dt
  ∧ ∃ offset, tz_utcoffset zone (civil dt) = Ok offset
              ∧ tz dt' = Some {| zone := zone; utcoffset := offset |}.
Proof.
  unfold localize. destruct (tz dt) eqn:E; [done|].
  destruct (tz_utcoffset zone (civil dt)) as [offset|e] eqn:Eo; [|done].
  intros [= <-]. simpl. eauto.
Qed.

Lemma normalize_Ok s dt :
  normalize s = Ok dt →
  ∃ naive offset,
    dateutil_parse (rstrip_chars (str "Zz") s) = Ok naive
    ∧ tz naive = None
    ∧ civil dt = civil naive
    ∧ tz_utcoffset central_tz (civil naive) = Ok offset
    ∧ tz dt = Some {| zone := central_tz; utcoffset := offset |}.
Proof.
  unfold normalize. intros Hn.
  destruct (dateutil_parse _) as [naive|e] eqn:Hp; simpl in Hn; [|done].
  apply localize_Ok in Hn as (Hnaive & Hc & offset & Ho & Ht).
  by exists naive, offset.
Qed.
End NormalizeFacts.

(** C2: a timestamp that ends in [Z] or [z] normalises as the same
    timestamp without that character, and as the timestamp with all its
    trailing markers removed.  When a datetime comes out, what is left of
    the string was parsed as a naive datetime, the wall-clock fields are
    those parsed, and the zone attached is America/Chicago with the offset
    the tz database resolves for that wall-clock time. *)
Theorem C2_utc_marker_ignored `{DateLib} (s : pystr) (c : N) :
  [c] = str "Z" ∨ [c] = str "z" →
  normalize (s ++ [c]) = normalize s
  ∧ normalize (s ++ [c]) = normalize (rstrip_chars (str "Zz") (s ++ [c]))
  ∧ ∀ dt, normalize (s ++ [c]) = Ok dt →
      ∃ naive offset,
        dateutil_parse (rstrip_chars (str "Zz") s) = Ok naive
        ∧ tz naive = None
        ∧ civil dt = civil naive
        ∧ tz_utcoffset (str "America/Chicago") (civil naive) = Ok offset
        ∧ tz dt = Some {| zone := str "America/Chicago"; utcoffset := offset |}.
Proof.
  intros Hc.
  assert (Hstrip : rstrip_chars (str "Zz") (s ++ [c]) = rstrip_chars (str "Zz") s).
  { unfold rstrip_chars. apply rstrip_with_snoc.
    destruct Hc as [[= ->] | [= ->]]; reflexivity. }
  assert (Heq : normalize (s ++ [c]) = normalize s).
  { unfold normalize. by rewrite Hstrip. }
  split; [done|]. split.
  - unfold normalize, rstrip_chars. by rewrite rstrip_with_idem.
  - intros dt Hdt. rewrite Heq in Hdt. by apply normalize_Ok.
Qed.

(** The timestamp of the specification: 14:30 on 10 March 2025 is kept as
    wall-clock time in Chicago, on daylight time, five hours behind UTC. *)
Lemma C2_march_2025 :
  ([90] = str "Z" ∨ [90] = str "z")
  ∧ normalize (D:=iso_datelib) (str "2025-03-10T14:30:00" ++ [90])
    = normalize (D:=iso_datelib) (str "2025-03-10T14:30:00")
  ∧ normalize (D:=iso_datelib) (str "2025-03-10T14:30:00Z")
    = Ok {| civil := {| year := 2025; month := 3; day := 10;
                        hour := 14; minute := 30; second := 0;
                        microsecond := 0 |};
            tz := Some {| zone := str "America/Chicago";
                          utcoffset := -300 |} |}.
Proof.
  split; [by left|]. split.
  - apply (C2_utc_marker_ignored (H:=iso_datelib)). by left.
  - vm_compute. reflexivity.
Defined.

(** ** Navigation of the tree *)

Lemma head_filter_Some {A} (p : A → bool) l x :
  head (List.filter p l) = Some x → x ∈ l ∧ p x = true.
Proof.
  intros Hh. assert (Hin : In x (List.filter p l)).
  { destruct (List.filter p l); [done|]. injection Hh as ->. by left. }
  apply List.filter_In in Hin as [Hin Hp]. split; [|done].
  by apply list_elem_of_In.
Qed.

(** Induction on a document, with the hypothesis on every child of a tag. *)
Lemma node_induction (P : node → Prop) :
  (∀ text, P (NavigableString text)) →
  (∀ name attrs classes contents,
      Forall P contents → P (Tag name attrs classes contents)) →
  ∀ n, P n.
Proof.
  intros Hstring Htag. fix IH 1.
  intros [text|name attrs classes contents]; [apply Hstring|].
  apply Htag. induction contents as [|c cs IHcs]; constructor.
  - apply IH.
  - apply IHcs.
Qed.

Lemma elem_of_descendants_Tag n name attrs classes contents :
  n ∈ descendants (Tag name attrs classes contents)
  ↔ ∃ c, c ∈ contents ∧ (n = c ∨ n ∈ descendants c).
Proof.
  simpl. rewrite list_elem_of_In, in_flat_map. split.
  - intros (c & Hc & Hn). exists c. rewrite list_elem_of_In. split; [done|].
    destruct Hn as [->|Hn]; [by left|right; by apply list_elem_of_In].
  - intros (c & Hc & Hn). exists c. rewrite <- list_elem_of_In. split; [done|].
    destruct Hn as [->|Hn]; [by left|right; by apply list_elem_of_In].
Qed.

(** A node below a node below the root is below the root. *)
Lemma descendants_trans root a n :
  a ∈ descendants root → n ∈ descendants a → n ∈ descendants root.
Proof.
  induction root as [text|name attrs classes contents IH] using node_induction.
  - by intros ?%elem_of_nil.
  - rewrite !elem_of_descendants_Tag. intros (c & Hc & Ha) Hn.
    exists c. split; [done|]. right. destruct Ha as [->|Ha]; [done|].
    rewrite Forall_forall in IH. by apply (IH c).
Qed.

(** What [find] returns is a node below the root that matches. *)
Lemma find_Some name class_ root n :
  find name class_ root = Some n →
  n ∈ descendants root ∧ matches name class_ n = true.
Proof. apply head_filter_Some. Qed.

(** ** One container *)

Section ItemFacts.
Context {U : UnicodeDB} {D : DateLib}.

Lemma scrape_item_unfold acc item :
  scrape_item acc item =
    match extract_datetime_str item with
    | [] => Ok acc
    | _ :: _ =>
        match normalize (extract_datetime_str item) with
        | Ok dt => Ok (acc ++ [event_of item dt])
        | Raise e =>
            if catches [ValueError; TypeError] e then Ok acc else Raise e
        end
    end.
Proof.
  unfold scrape_item, event_of.
  destruct (extract_title_link item) as [t l].
  destruct (extract_datetime_str item); [done|].
  by destruct (normalize _).
Qed.

(** What a container does to the list when no exception goes up. *)
Lemma scrape_item_Ok acc item evs :
  scrape_item acc item = Ok evs →
  evs = acc
  ∨ ∃ dt, extract_datetime_str item ≠ []
          ∧ normalize (extract_datetime_str item) = Ok dt
          ∧ evs = acc ++ [event_of item dt].
Proof.
  rewrite scrape_item_unfold.
  destruct (extract_datetime_str item) eqn:Eds; [intros [= <-]; by left|].
  destruct (normalize _) as [dt|e] eqn:En.
  - intros [= <-]. right. by exists dt.
  - destruct (catches _ e); [|done]. intros [= <-]. by left.
Qed.

(** A container without a usable timestamp leaves the list as it is: no
    [time] tag, no [datetime] attribute, an empty one, or a string on
    which normalising raises [ValueError] or [TypeError]. *)
Lemma scrape_item_dropped acc item :
  find (str "time") None item = None
  ∨ (∃ time_tag, find (str "time") None item = Some time_tag
                 ∧ tag_attrs time_tag !! str "datetime" = None)
  ∨ extract_datetime_str item = []
  ∨ normalize (extract_datetime_str item) = Raise ValueError
  ∨ normalize (extract_datetime_str item) = Raise TypeError →
  scrape_item acc item = Ok acc.
Proof.
  rewrite scrape_item_unfold.
  intros [Hb|[(tt & Hb & Hattr)|[Hb|[Hb|Hb]]]].
  - unfold extract_datetime_str. by rewrite Hb.
  - unfold extract_datetime_str. by rewrite Hb, Hattr.
  - by rewrite Hb.
  - rewrite Hb. by destruct (extract_datetime_str item).
  - rewrite Hb. by destruct (extract_datetime_str item).
Qed.

(** An exception the handler does not take goes up. *)
Lemma scrape_item_Raise acc item e :
  extract_datetime_str item ≠ [] →
  normalize (extract_datetime_str item) = Raise e →
  catches [ValueError; TypeError] e = false →
  scrape_item acc item = Raise e.
Proof.
  intros Hds Hn Hc. rewrite scrape_item_unfold, Hn, Hc.
  by destruct (extract_datetime_str item).
Qed.

(** The event a container appends is the one built from its fields. *)
Lemma scrape_item_snoc acc item e :
  scrape_item acc item = Ok (acc ++ [e]) →
  e = event_of item (start_time e)
  ∧ extract_datetime_str item ≠ []
  ∧ normalize (extract_datetime_str item) = Ok (start_time e).
Proof.
  intros [Heq|(dt & Hds & Hn & Heq)]%scrape_item_Ok.
  - apply (f_equal length) in Heq. rewrite length_app in Heq. simpl in Heq. lia.
  - apply app_inv_head in Heq. injection Heq as ->. done.
Qed.

(** The events a run of the loop adds, when no exception goes up. *)
Lemma scrape_items_Ok items acc evs :
  scrape_items acc items = Ok evs →
  ∃ new,
    evs = acc ++ new
    ∧ ∀ e, e ∈ new →
        ∃ item, item ∈ items
                ∧ e = event_of item (start_time e)
                ∧ extract_datetime_str item ≠ []
                ∧ normalize (extract_datetime_str item) = Ok (start_time e).
Proof.
  revert acc. induction items as [|item items IH]; intros acc; simpl.
  - intros [= <-]. exists []. split; [by rewrite app_nil_r|].
    by intros e ?%elem_of_nil.
  - destruct (scrape_item acc item) as [evs1|e1] eqn:E1; simpl; [|done].
    intros (new & -> & Hnew)%IH.
    apply scrape_item_Ok in E1 as [->|(dt & Hds & Hn & ->)].
    + exists new. split; [done|]. intros e (it & Hit & ?)%Hnew.
      exists it. split; [by right|done].
    + exists (event_of item dt :: new). split; [by rewrite <- app_assoc|].
      intros e [->|He]%elem_of_cons.
      * exists item. split; [by left|done].
      * destruct (Hnew e He) as (it & Hit & ?). exists it. split; [by right|done].
Qed.

Lemma scrape_soup_items soup :
  scrape_soup soup = scrape_items [] (event_containers soup).
Proof. unfold scrape_soup. by destruct (event_containers soup). Qed.

Lemma elem_of_scrape_soup soup evs e :
  scrape_soup soup = Ok evs → e ∈ evs →
  ∃ item, item ∈ event_containers soup
          ∧ e = event_of item (start_time e)
          ∧ extract_datetime_str item ≠ []
          ∧ normalize (extract_datetime_str item) = Ok (start_time e).
Proof.
  rewrite scrape_soup_items. intros (new & -> & Hnew)%scrape_items_Ok He.
  by apply Hnew.
Qed.

(** The loop over a list in two parts. *)
Lemma scrape_items_app acc items1 items2 :
  scrape_items acc (items1 ++ items2)
  = evs ← scrape_items acc items1; scrape_items evs items2.
Proof.
  revert acc. induction items1 as [|item items1 IH]; intros acc; simpl; [done|].
  destruct (scrape_item acc item); simpl; [apply IH|done].
Qed.
End ItemFacts.

(** ** One page *)

(** What the handler of line 127 is written for: a container without a
    usable timestamp (no [time] tag, no [datetime] attribute, an empty
    one, or a string on which normalising raises [ValueError] or
    [TypeError]) adds no event, and the loop goes on with the containers
    after it. *)
Lemma unusable_timestamp_skipped `{UnicodeDB} `{DateLib}
    (soup : node) (before : list node) (item : node) (after : list node) :
  event_containers soup = before ++ item :: after →
  find (str "time") None item = None
  ∨ (∃ time_tag, find (str "time") None item = Some time_tag
                 ∧ tag_attrs time_tag !! str "datetime" = None)
  ∨ extract_datetime_str item = []
  ∨ normalize (extract_datetime_str item) = Raise ValueError
  ∨ normalize (extract_datetime_str item) = Raise TypeError →
  (∀ events_on_page, scrape_item events_on_page item = Ok events_on_page)
  ∧ scrape_soup soup = scrape_items [] (before ++ after).
Proof.
  intros Hsoup Hbad.
  assert (Hdrop : ∀ acc, scrape_item acc item = Ok acc)
    by (intros acc; by apply scrape_item_dropped).
  split; [done|].
  rewrite scrape_soup_items, Hsoup, !scrape_items_app.
  destruct (scrape_items [] before) as [evs|e]; simpl; [|done].
  by rewrite Hdrop.
Qed.

(** What it misses: an exception of another class raised while a
    timestamp is normalised goes up through the loop, whatever the
    containers before it gave. *)
Lemma uncaught_exception_aborts_page `{UnicodeDB} `{DateLib}
    (soup : node) (before : list node) (item : node) (after : list node)
    (evs : list event) (e : exn) :
  event_containers soup = before ++ item :: after →
  scrape_items [] before = Ok evs →
  extract_datetime_str item ≠ [] →
  normalize (extract_datetime_str item) = Raise e →
  catches [ValueError; TypeError] e = false →
  scrape_soup soup = Raise e.
Proof.
  intros Hsoup Hbefore Hds Hn Hc.
  rewrite scrape_soup_items, Hsoup, scrape_items_app, Hbefore. simpl.
  by rewrite (scrape_item_Raise evs item e).
Qed.

(** C3, on the code: a container whose timestamp is the last day of the
    calendar, between two containers with good timestamps.  [dateutil]
    reads the string and [localize] raises [OverflowError], which the
    handler of line 127 does not take: the page gives no events at all,
    [scrape_page] raises, and so does the run, with nothing written. *)
Theorem C3_last_day_aborts_page :
  event_containers last_day_page = [item_concert; item_last_day; item_jazz]
  ∧ normalize (D:=iso_datelib) (extract_datetime_str item_last_day)
    = Raise OverflowError
  ∧ scrape_soup (U:=ascii_db) (D:=iso_datelib) last_day_page
    = Raise OverflowError
  ∧ (scrape_page (U:=ascii_db) (D:=iso_datelib) env_last_day base_url
       fresh_world).1 = Raise OverflowError
  ∧ (main (U:=ascii_db) (D:=iso_datelib) (P:=posix) env_last_day
       fresh_world).1 = Raise OverflowError
  ∧ files (main (U:=ascii_db) (D:=iso_datelib) (P:=posix) env_last_day
             fresh_world).2 = ∅.
Proof. repeat split; vm_compute; reflexivity. Qed.

(** C4: an event of a page comes from one of its containers, whose
    timestamp was present and normalised to the start time of the event;
    that start time is aware, in America/Chicago, with the offset the tz
    database gives its wall-clock time; the title is the placeholder or the
    trimmed text of an element of the container, and so is the location. *)
Theorem C4_record_invariant `{UnicodeDB} `{DateLib}
    (soup : node) (events : list event) (e : event) :
  scrape_soup soup = Ok events →
  e ∈ events →
  ∃ item offset,
    item ∈ event_containers soup
    ∧ extract_datetime_str item ≠ []
    ∧ normalize (extract_datetime_str item) = Ok (start_time e)
    ∧ tz_utcoffset (str "America/Chicago") (civil (start_time e)) = Ok offset
    ∧ tz (start_time e)
      = Some {| zone := str "America/Chicago"; utcoffset := offset |}
    ∧ (title e = str "No Title Found"
       ∨ ∃ element, element ∈ descendants item
                    ∧ title e = strip (get_text element))
    ∧ (location e = str "No Location Found"
       ∨ ∃ element, element ∈ descendants item
                    ∧ location e = strip (get_text element)).
Proof.
  intros Hsoup He.
  destruct (elem_of_scrape_soup soup events e Hsoup He)
    as (item & Hitem & Heq & Hds & Hn).
  destruct (normalize_Ok _ _ Hn) as (naive & offset & _ & _ & Hc & Ho & Ht).
  exists item, offset. split; [done|]. split; [done|]. split; [done|].
  split; [by rewrite Hc|]. split; [done|].
  rewrite Heq. unfold event_of; simpl. split.
  - unfold extract_title_link.
    destruct (find (str "a") None item) as [a|] eqn:Ha; [|by left].
    apply find_Some in Ha as [Ha _]. right. simpl.
    destruct (find (str "span") _ a) as [sp|] eqn:Hsp.
    + apply find_Some in Hsp as [Hsp _]. exists sp. split; [|done].
      by apply (descendants_trans item a sp).
    + by exists a.
  - unfold extract_location.
    destruct (find (str "span") _ item) as [sp|] eqn:Hsp; [|by left].
    apply find_Some in Hsp as [Hsp _]. right. by exists sp.
Qed.

(** The events of the sample listing. *)
Lemma scrape_first_page :
  scrape_soup (U:=ascii_db) (D:=iso_datelib) first_page
  = Ok [concert_event; jazz_event].
Proof. vm_compute. reflexivity. Qed.

(** The concert of the sample listing comes from a container whose
    timestamp normalises to its start time. *)
Lemma C4_concert_event :
  scrape_soup (U:=ascii_db) (D:=iso_datelib) first_page
  = Ok [concert_event; jazz_event]
  ∧ ∃ item,
      item ∈ event_containers first_page
      ∧ normalize (D:=iso_datelib) (extract_datetime_str item)
        = Ok (start_time concert_event).
Proof.
  split; [exact scrape_first_page|].
  destruct (C4_record_invariant (H:=ascii_db) (H0:=iso_datelib)
              first_page [concert_event; jazz_event] concert_event
              scrape_first_page (list_elem_of_here _ _))
    as (item & offset & Hitem & _ & Hn & _).
  exists item. split; [exact Hitem|exact Hn].
Defined.

(** C6, as the code has it: a page that was parsed and on which the
    selector finds no container has no events: [scrape_soup] returns the
    empty list, and so does [scrape_page], without an exception, when the
    request succeeds and its body parses to such a page. *)
Theorem C6_no_containers `{UnicodeDB} `{DateLib} (soup : node) :
  event_containers soup = [] →
  scrape_soup soup = Ok []
  ∧ ∀ env url w,
      http_get env (length (requested w)) url = Some (Ok soup) →
      scrape_page env url w = (Ok [], log_request url w).
Proof.
  intros Hnone.
  assert (Hs : scrape_soup soup = Ok [])
    by (unfold scrape_soup; by rewrite Hnone).
  split; [done|]. intros env url w Hget.
  unfold scrape_page, requests_get. rewrite Hget. simpl. by rewrite Hs.
Qed.

(** A page with a paragraph and no container. *)
Lemma C6_empty_page :
  event_containers empty_page = []
  ∧ scrape_soup (U:=ascii_db) (D:=iso_datelib) empty_page = Ok [].
Proof.
  assert (Hc : event_containers empty_page = []) by (vm_compute; reflexivity).
  split; [exact Hc|].
  exact (proj1 (C6_no_containers (H:=ascii_db) (H0:=iso_datelib) empty_page Hc)).
Defined.

(** C6 as the claim words it fails on a body that [html.parser] rejects,
    such as [<![foo bar]>]: no container is matched in it, and the parse of
    line 54, outside any [try], raises. *)
Lemma C6_rejected_markup_raises :
  http_get env_rejected_markup 0 base_url = Some (Raise ParserRejectedMarkup)
  ∧ scrape_page (U:=ascii_db) (D:=iso_datelib) env_rejected_markup base_url
      fresh_world
    = (Raise ParserRejectedMarkup, log_request base_url fresh_world).
Proof. split; reflexivity. Qed.

(** ** Fields of an event *)

Lemma startswith_app pre s : startswith pre (pre ++ s) = true.
Proof. induction pre as [|a pre IH]; simpl; [done|]. by rewrite decide_True. Qed.

(** C7: the link of the event of a container with an anchor is the [href]
    of the anchor (the empty string when the anchor has none) behind the
    origin of the site when it begins with [/], and the [href] itself
    otherwise. *)
Theorem C7_link_resolution `{UnicodeDB} `{DateLib}
    (item link_element : node) (href : pystr)
    (events_on_page : list event) (e : event) :
  find (str "a") None item = Some link_element →
  default [] (tag_attrs link_element !! str "href") = href →
  scrape_item events_on_page item = Ok (events_on_page ++ [e]) →
  (∀ rest, href = str "/" ++ rest →
           link e = str "https://murphy.tulane.edu" ++ href)
  ∧ (startswith (str "/") href = false → link e = href)
  ∧ resolve_href (str "/events/foo") = str "https://murphy.tulane.edu/events/foo".
Proof.
  intros Ha Hhref [He _]%scrape_item_snoc.
  assert (Hlink : link e = resolve_href href).
  { rewrite He. unfold event_of, extract_title_link; simpl.
    rewrite Ha. simpl. by rewrite Hhref. }
  rewrite Hlink. unfold resolve_href. split; [|split].
  - intros rest ->. by rewrite startswith_app.
  - by intros ->.
  - reflexivity.
Qed.

(** A relative [href]: the link of the concert. *)
Lemma C7_concert_link :
  link concert_event = str "https://murphy.tulane.edu" ++ str "/events/foo".
Proof.
  refine (proj1 (C7_link_resolution (H:=ascii_db) (H0:=iso_datelib)
            item_concert
            (Tag (str "a") {[ str "href" := str "/events/foo" ]} []
               [ NavigableString (str " Music: ");
                 text_tag (str "span") [str "font-bold"] (str " Spring Concert ") ])
            (str "/events/foo") [] concert_event _ _ _) (str "events/foo") _).
  - vm_compute. reflexivity.
  - vm_compute. reflexivity.
  - vm_compute. reflexivity.
  - reflexivity.
Defined.

(** A relative and an absolute [href] side by side. *)
Lemma links_first_page :
  link <$> [concert_event; jazz_event]
  = [str "https://murphy.tulane.edu/events/foo"; str "https://example.org/jazz"].
Proof. reflexivity. Qed.

(** C8: the title of the event of a container is the trimmed text of the
    [font-bold] span inside its anchor when there is one, the trimmed text
    of the whole anchor when there is none, and the placeholder when the
    container has no anchor. *)
Theorem C8_title_fallback `{UnicodeDB} `{DateLib}
    (item : node) (events_on_page : list event) (e : event) :
  scrape_item events_on_page item = Ok (events_on_page ++ [e]) →
  (∀ link_element title_span,
      find (str "a") None item = Some link_element →
      find (str "span") (Some (str "font-bold")) link_element = Some title_span →
      title e = strip (get_text title_span))
  ∧ (∀ link_element,
      find (str "a") None item = Some link_element →
      find (str "span") (Some (str "font-bold")) link_element = None →
      title e = strip (get_text link_element))
  ∧ (find (str "a") None item = None → title e = str "No Title Found").
Proof.
  intros [He _]%scrape_item_snoc. rewrite He.
  unfold event_of, extract_title_link; simpl.
  split; [|split].
  - intros a sp -> Hsp. simpl. by rewrite Hsp.
  - intros a -> Hsp. simpl. by rewrite Hsp.
  - by intros ->.
Qed.

(** An anchor without the span: the title is the text of the anchor. *)
Lemma C8_anchor_text :
  title jazz_event = strip (U:=ascii_db) (str "  Jazz Night ").
Proof.
  refine (proj1 (proj2 (C8_title_fallback (H:=ascii_db) (H0:=iso_datelib)
            item_jazz [] jazz_event _))
            (Tag (str "a") {[ str "href" := str "https://example.org/jazz" ]} []
               [ NavigableString (str "  Jazz Night ") ]) _ _);
    vm_compute; reflexivity.
Defined.

(** Titles from the span and from the anchor on the listing; the
    placeholder on the page whose only dated container has no anchor. *)
Lemma titles_by_page :
  ((λ evs : list event, title <$> evs) <$> scrape_soup (U:=ascii_db) (D:=iso_datelib) first_page)
  = Ok [str "Spring Concert"; str "Jazz Night"]
  ∧ ((λ evs : list event, title <$> evs) <$> scrape_soup (U:=ascii_db) (D:=iso_datelib) second_page)
    = Ok [str "No Title Found"].
Proof. split; vm_compute; reflexivity. Qed.

(** ** Pagination *)

(** The selector, read on the tree: an [a] tag below an [li.pager__item]
    tag of the document (or, when [inside] is set, any [a] tag). *)
Lemma elem_of_select_pager_links root inside n :
  n ∈ select_pager_links inside root
  ↔ is_anchor n = true
    ∧ ((inside = true ∧ (n = root ∨ n ∈ descendants root))
       ∨ ∃ li, (li = root ∨ li ∈ descendants root)
               ∧ is_pager_item li = true ∧ n ∈ descendants li).
Proof.
  revert inside.
  induction root as [text|name attrs classes contents IH] using node_induction;
    intros inside.
  - simpl. split; [by intros ?%elem_of_nil|].
    intros (Ha & [(_ & [->|Hn])|(li & [->|Hli] & Hp & Hn)]);
      try discriminate; by apply elem_of_nil in Hn || apply elem_of_nil in Hli.
  - set (root := Tag name attrs classes contents).
    assert (Hkids : ∀ m, m ∈ flat_map (select_pager_links (inside || is_pager_item root)) contents
                         ↔ ∃ c, c ∈ contents ∧ m ∈ select_pager_links (inside || is_pager_item root) c).
    { intros m. rewrite list_elem_of_In, in_flat_map.
      split; intros (c & Hc & Hm); exists c; split;
        by apply list_elem_of_In. }
    rewrite Forall_forall in IH.
    change (select_pager_links inside root)
      with ((if inside && is_anchor root then [root] else [])
            ++ flat_map (select_pager_links (inside || is_pager_item root)) contents).
    rewrite elem_of_app, Hkids. split.
    + intros [Hhere|(c & Hc & Hn)].
      * destruct inside; simpl in Hhere; [|by apply elem_of_nil in Hhere].
        destruct (is_anchor root) eqn:Ha; [|by apply elem_of_nil in Hhere].
        apply list_elem_of_singleton in Hhere as ->. split; [done|]. left. auto.
      * apply (IH c Hc) in Hn as (Ha & Hn). split; [done|].
        assert (Hsub : ∀ m, m = c ∨ m ∈ descendants c → m ∈ descendants root).
        { intros m Hm. apply elem_of_descendants_Tag. eauto. }
        destruct Hn as [(Hin & Hn)|(li & Hli & Hp & Hn)].
        -- apply orb_true_iff in Hin as [->|Hp].
           ++ left. auto.
           ++ right. exists root. auto.
        -- right. exists li. auto.
    + intros (Ha & Hn).
      assert (Hdown : ∀ m, m ∈ descendants root →
                ∃ c, c ∈ contents ∧ (m = c ∨ m ∈ descendants c)).
      { intros m Hm. by apply elem_of_descendants_Tag in Hm. }
      destruct Hn as [(-> & [->|Hn])|(li & [->|Hli] & Hp & Hn)].
      * left. simpl. rewrite Ha. apply list_elem_of_here.
      * right. apply Hdown in Hn as (c & Hc & Hn). exists c. split; [done|].
        apply (IH c Hc). split; [done|]. left. auto.
      * right. apply Hdown in Hn as (c & Hc & Hn). exists c. split; [done|].
        apply (IH c Hc). split; [done|]. left. rewrite Hp, orb_true_r. auto.
      * right. apply Hdown in Hli as (c & Hc & Hli). exists c. split; [done|].
        apply (IH c Hc). split; [done|]. right. exists li. auto.
Qed.

Lemma elem_of_add_page_link acc link url :
  url ∈ add_page_link acc link
  ↔ url ∈ acc
    ∨ ∃ href, tag_attrs link !! str "href" = Some href
              ∧ startswith (str "?page=") href = true
              ∧ url = base_url ++ href.
Proof.
  unfold add_page_link.
  destruct (tag_attrs link !! str "href") as [href|] eqn:Hh.
  - destruct (bool_decide (href = [])) eqn:He; cbn [negb andb].
    + apply bool_decide_eq_true in He as ->. split; [by left|].
      intros [?|(href & [= <-] & Hs & _)]; [done|]. discriminate.
    + destruct (startswith (str "?page=") href) eqn:Hs.
      * split.
        -- intros [?| ->%elem_of_singleton]%elem_of_union; [by left|].
           right. by exists href.
        -- intros [?|(href' & [= <-] & _ & ->)]; apply elem_of_union;
             [by left|right; by apply elem_of_singleton].
      * split; [by left|].
        intros [?|(href' & [= <-] & Hs' & _)]; [done|congruence].
  - split; [by left|]. by intros [?|(href & ? & _)].
Qed.

Lemma elem_of_foldl_add_page_link pager_items acc url :
  url ∈ foldl add_page_link acc pager_items
  ↔ url ∈ acc
    ∨ ∃ link href, link ∈ pager_items
                   ∧ tag_attrs link !! str "href" = Some href
                   ∧ startswith (str "?page=") href = true
                   ∧ url = base_url ++ href.
Proof.
  revert acc. induction pager_items as [|l ls IH]; intros acc; simpl.
  - split; [by left|]. intros [?|(link & href & Hin & _)]; [done|].
    by apply elem_of_nil in Hin.
  - rewrite IH, elem_of_add_page_link. split.
    + intros [[?|(href & ? & ? & ?)]|(link & href & Hin & ?)].
      * by left.
      * right. exists l, href. split; [apply list_elem_of_here|done].
      * right. exists link, href. split; [by apply list_elem_of_further|done].
    + intros [?|(link & href & Hin & Hrest)]; [by left; left|].
      apply elem_of_cons in Hin as [->|Hin].
      * left. right. by exists href.
      * right. by exists link, href.
Qed.

(** C9: a URL is among the page links exactly when it is the base URL
    followed by the [href] of an [a] tag below an [li.pager__item] tag, that
    [href] beginning with [?page=].  The links form a set: listing them
    gives no URL twice, and two documents whose pager anchors are the same
    up to order (and repetition) give the same set. *)
Theorem C9_page_links (soup : node) :
  (∀ url,
      url ∈ page_links soup
      ↔ ∃ li link href,
          (li = soup ∨ li ∈ descendants soup)
          ∧ tag_name li = str "li" ∧ str "pager__item" ∈ tag_classes li
          ∧ link ∈ descendants li ∧ tag_name link = str "a"
          ∧ tag_attrs link !! str "href" = Some href
          ∧ startswith (str "?page=") href = true
          ∧ url = str "https://murphy.tulane.edu/events/upcoming-events" ++ href)
  ∧ NoDup (elements (page_links soup))
  ∧ (∀ soup',
        (∀ link, link ∈ select_pager_links false soup'
                 ↔ link ∈ select_pager_links false soup) →
        page_links soup' = page_links soup).
Proof.
  assert (Hin : ∀ s url,
    url ∈ page_links s
    ↔ ∃ link href, link ∈ select_pager_links false s
                   ∧ tag_attrs link !! str "href" = Some href
                   ∧ startswith (str "?page=") href = true
                   ∧ url = base_url ++ href).
  { intros s url. unfold page_links. rewrite elem_of_foldl_add_page_link.
    split; [intros [?%not_elem_of_empty|?]; done|by right]. }
  split; [|split].
  - intros url. rewrite Hin. split.
    + intros (link & href & Hsel & Hrest).
      apply elem_of_select_pager_links in Hsel
        as (Ha & [([=] & _)|(li & Hli & Hp & Hl)]).
      unfold is_pager_item in Hp. apply andb_true_iff in Hp as [Hn Hc].
      apply bool_decide_eq_true in Hn, Hc, Ha.
      exists li, link, href. done.
    + intros (li & link & href & Hli & Hn & Hc & Hl & Ha & Hrest).
      exists link, href. split; [|done].
      apply elem_of_select_pager_links. split; [by apply bool_decide_eq_true|].
      right. exists li. split; [done|]. split; [|done].
      unfold is_pager_item. by rewrite !bool_decide_eq_true_2.
  - apply NoDup_elements.
  - intros soup' Hsame. apply set_eq. intros url. rewrite !Hin.
    split; intros (link & href & Hsel & Hrest); exists link, href;
      (split; [by apply Hsame|done]).
Qed.

(** The second pager anchor of the sample listing gives page 1. *)
Lemma C9_first_page : page_1_url ∈ page_links first_page.
Proof.
  apply (proj1 (C9_page_links first_page)).
  exists (pager_link (str "?page=1")),
         (Tag (str "a") {[ str "href" := str "?page=1" ]} []
            [NavigableString (str "page")]),
         (str "?page=1").
  split.
  { right. apply list_elem_of_In. vm_compute. tauto. }
  repeat split; try (vm_compute; reflexivity).
  - apply list_elem_of_here.
  - apply list_elem_of_here.
Defined.


(** ** Requests and outcomes of the pages *)

Lemma requested_log_requests urls w :
  requested (log_requests urls w) = requested w ++ urls.
Proof.
  revert w. induction urls as [|u urls IH]; intros w; simpl.
  - by rewrite app_nil_r.
  - unfold log_requests in *. simpl. rewrite IH. simpl. by rewrite <- app_assoc.
Qed.

Lemma disk_log_requests urls w :
  opened (log_requests urls w) = opened w
  ∧ dirs (log_requests urls w) = dirs w
  ∧ files (log_requests urls w) = files w.
Proof.
  revert w. induction urls as [|u urls IH]; intros w; [done|].
  unfold log_requests in *. simpl. by destruct (IH (log_request u w)) as (-> & -> & ->).
Qed.

Lemma log_requests_app urls1 urls2 w :
  log_requests (urls1 ++ urls2) w = log_requests urls2 (log_requests urls1 w).
Proof. unfold log_requests. apply foldl_app. Qed.

(** When all the outcomes are values, all of them are met. *)
Lemma gather_Ok_reached {A} (outcomes : list (result (list A))) ls :
  gather outcomes = Ok ls → reached outcomes = length outcomes.
Proof.
  revert ls. induction outcomes as [|[l|e] rest IH]; intros ls; simpl; [done| |done].
  destruct (gather rest) as [ls'|e] eqn:E; simpl; [|done].
  intros _. f_equal. by apply (IH ls').
Qed.

Lemma reached_le {A} (outcomes : list (result A)) :
  (reached outcomes ≤ length outcomes)%nat.
Proof. induction outcomes as [|[a|e] rest IH]; simpl; lia. Qed.

(** A value gathered comes from one of the outcomes. *)
Lemma gather_Ok_elem {A} (outcomes : list (result (list A))) ls x :
  gather outcomes = Ok ls → x ∈ ls →
  ∃ i l, outcomes !! i = Some (Ok l) ∧ x ∈ l.
Proof.
  revert ls. induction outcomes as [|[l|e] rest IH]; intros ls; simpl.
  - intros [= <-] ?%elem_of_nil. done.
  - destruct (gather rest) as [ls'|e] eqn:E; simpl; [|done].
    intros [= <-] [Hx|Hx]%elem_of_app.
    + by exists 0%nat, l.
    + destruct (IH ls' eq_refl Hx) as (i & l' & Hi & Hl). by exists (S i), l'.
  - done.
Qed.

Section RunFacts.
Context {U : UnicodeDB} {D : DateLib}.
Variable env : environment.

Lemma scrape_page_eq url w :
  scrape_page env url w
  = (page_outcome env (length (requested w)) url, log_request url w).
Proof.
  unfold scrape_page, requests_get, page_outcome.
  by destruct (http_get env (length (requested w)) url).
Qed.

Lemma page_outcomes_cons n url urls :
  page_outcomes env n (url :: urls)
  = page_outcome env (S n) url :: page_outcomes env (S n) urls.
Proof.
  unfold page_outcomes. simpl. rewrite Nat.add_0_r. f_equal.
  apply imap_ext. intros i x _. simpl. f_equal. lia.
Qed.

Lemma length_page_outcomes n urls :
  length (page_outcomes env n urls) = length urls.
Proof. unfold page_outcomes. apply length_imap. Qed.

(** The loop over the pages, by requests: the pages are asked for in turn
    until one of them raises. *)
Lemma scrape_pages_eq pages all_events w :
  length (requested w) ≠ 0%nat →
  scrape_pages env pages all_events w
  = (evs ← gather (page_outcomes env (pred (length (requested w))) pages);
     Ok (all_events ++ evs),
     log_requests
       (take (reached (page_outcomes env (pred (length (requested w))) pages))
          pages) w).
Proof.
  revert all_events w. induction pages as [|url pages IH]; intros acc w Hn.
  - simpl. by rewrite app_nil_r.
  - rewrite page_outcomes_cons. cbn [scrape_pages]. rewrite scrape_page_eq.
    replace (S (pred (length (requested w)))) with (length (requested w)) by lia.
    destruct (page_outcome env (length (requested w)) url) as [evs|e] eqn:E.
    + rewrite IH by (simpl; rewrite length_app; simpl; lia).
      cbn [requested log_request]. rewrite length_app. cbn [length].
      replace (pred (length (requested w) + 1)) with (length (requested w)) by lia.
      cbn [gather reached take]. cbn [mbind result_bind].
      destruct (gather _) as [evs'|e]; [|done].
      cbn [mbind result_bind]. by rewrite app_assoc.
    + done.
Qed.
End RunFacts.
(** ** The loop that writes the files *)

Section EmitFacts.
Context {U : UnicodeDB} {D : DateLib} {P : Platform}.
Variable env : environment.

Lemma write_file_handled filepath c w :
  handled (open_write env (length (opened w)) filepath) = true →
  write_file env filepath c w = (Ok (), after_write env filepath c w).
Proof.
  unfold write_file, handled.
  destruct (raised _) as [[]|e]; [done|]. by intros ->.
Qed.

Lemma write_file_unhandled filepath c w :
  handled (open_write env (length (opened w)) filepath) = false →
  ∃ e, raised (open_write env (length (opened w)) filepath) = Raise e
       ∧ catches [OSError] e = false
       ∧ write_file env filepath c w = (Raise e, after_write env filepath c w).
Proof.
  unfold write_file, handled.
  destruct (raised _) as [[]|e]; [done|]. intros He. exists e. by rewrite He.
Qed.

Lemma write_file_Ok_handled filepath c w :
  (write_file env filepath c w).1 = Ok () →
  handled (open_write env (length (opened w)) filepath) = true.
Proof.
  unfold write_file, handled. cbn [fst].
  destruct (raised _) as [[]|e]; [done|]. by destruct (catches _ _).
Qed.

Lemma path_exists_after_write path filepath c w :
  path_exists path w = true →
  path_exists path (after_write env filepath c w) = true.
Proof.
  unfold path_exists. intros [Hd|Hf]%orb_true_iff; apply orb_true_iff.
  - by left.
  - right. apply bool_decide_eq_true in Hf. apply bool_decide_eq_true. simpl.
    destruct (open_write _ _ _); [|done|];
      (destruct (decide (filepath = path)) as [->|Hne];
       [rewrite lookup_insert_eq; eauto|by rewrite lookup_insert_ne]).
Qed.

Lemma path_exists_ensure_dir w : path_exists (str "events") (ensure_dir w) = true.
Proof.
  unfold ensure_dir. destruct (path_exists (str "events") w) eqn:E; [done|].
  unfold path_exists. simpl. apply orb_true_iff. left.
  apply bool_decide_eq_true, elem_of_union. right. by apply elem_of_singleton.
Qed.

Lemma ensure_dir_id w : path_exists (str "events") w = true → ensure_dir w = w.
Proof. unfold ensure_dir. by intros ->. Qed.

Lemma disk_ensure_dir w :
  requested (ensure_dir w) = requested w
  ∧ opened (ensure_dir w) = opened w
  ∧ files (ensure_dir w) = files w.
Proof. unfold ensure_dir. by destruct (path_exists _ _). Qed.

(** One call, when the directory is there or can be made. *)
Lemma generate_ics_file_ready e w :
  path_exists (str "events") w = true
  ∨ make_dirs env (length (opened w)) (str "events") = true →
  generate_ics_file env e w
  = write_file env (event_path e) (calendar_of e) (ensure_dir w).
Proof.
  unfold generate_ics_file, ensure_dir.
  destruct (path_exists (str "events") w); [done|].
  intros [?| ->]; done.
Qed.

(** One call, when the directory is missing and cannot be made. *)
Lemma generate_ics_file_Raise e w :
  path_exists (str "events") w = false →
  make_dirs env (length (opened w)) (str "events") = false →
  generate_ics_file env e w = (Raise OSError, w).
Proof. unfold generate_ics_file. by intros -> ->. Qed.

Lemma write_all_cons e evs w :
  write_all env (e :: evs) w
  = write_all env evs (after_write env (event_path e) (calendar_of e) w).
Proof. done. Qed.

Lemma write_all_app evs1 evs2 w :
  write_all env (evs1 ++ evs2) w = write_all env evs2 (write_all env evs1 w).
Proof. unfold write_all. apply foldl_app. Qed.

Lemma requested_write_all evs w : requested (write_all env evs w) = requested w.
Proof.
  revert w. induction evs as [|e evs IH]; intros w; [done|].
  by rewrite write_all_cons, IH.
Qed.

Lemma dirs_write_all evs w : dirs (write_all env evs w) = dirs w.
Proof.
  revert w. induction evs as [|e evs IH]; intros w; [done|].
  by rewrite write_all_cons, IH.
Qed.

Lemma opened_write_all evs w :
  opened (write_all env evs w) = opened w ++ (event_path <$> evs).
Proof.
  revert w. induction evs as [|e evs IH]; intros w.
  - simpl. by rewrite app_nil_r.
  - rewrite write_all_cons, IH. simpl. by rewrite <- app_assoc.
Qed.

Lemma path_exists_write_all path evs w :
  path_exists path w = true → path_exists path (write_all env evs w) = true.
Proof.
  revert w. induction evs as [|e evs IH]; intros w Hex; [done|].
  rewrite write_all_cons. by apply IH, path_exists_after_write.
Qed.

(** The loop, once the directory is there: it goes through the events
    whose writing raises nothing the handler does not take. *)
Lemma generate_all_exists_app before rest w :
  path_exists (str "events") w = true →
  (∀ i e, before !! i = Some e →
          handled (open_write env (length (opened w) + i) (event_path e)) = true) →
  generate_all env (before ++ rest) w
  = generate_all env rest (write_all env before w).
Proof.
  revert w. induction before as [|e before IH]; intros w Hex Hh; [done|].
  cbn [app generate_all].
  rewrite generate_ics_file_ready by (by left).
  rewrite ensure_dir_id by done.
  rewrite write_file_handled
    by (specialize (Hh 0%nat e eq_refl); by rewrite Nat.add_0_r in Hh).
  rewrite write_all_cons. apply IH.
  - by apply path_exists_after_write.
  - intros i e' Hi. specialize (Hh (S i) e' Hi).
    simpl. rewrite length_app. simpl.
    by replace (length (opened w) + 1 + i)%nat
      with (length (opened w) + S i)%nat by lia.
Qed.

(** The first call settles the directory for the loop. *)
Lemma generate_all_ready evs w :
  path_exists (str "events") w = true
  ∨ make_dirs env (length (opened w)) (str "events") = true →
  evs ≠ [] →
  generate_all env evs w = generate_all env evs (ensure_dir w).
Proof.
  intros Hready Hne. destruct evs as [|e evs]; [done|]. cbn [generate_all].
  rewrite generate_ics_file_ready by done.
  rewrite (generate_ics_file_ready e (ensure_dir w))
    by (left; apply path_exists_ensure_dir).
  by rewrite (ensure_dir_id (ensure_dir w)) by apply path_exists_ensure_dir.
Qed.

(** The loop, when the directory is there or can be made and the handler
    takes what the writes raise. *)
Lemma generate_all_Ok evs w :
  (∀ k path, handled (open_write env k path) = true) →
  evs = []
  ∨ path_exists (str "events") w = true
  ∨ make_dirs env (length (opened w)) (str "events") = true →
  generate_all env evs w
  = (Ok (), match evs with [] => w | _ :: _ => write_all env evs (ensure_dir w) end).
Proof.
  intros Hh. destruct evs as [|e evs]; [done|]. intros [?|Hready]; [done|].
  rewrite generate_all_ready by done.
  rewrite <- (app_nil_r (e :: evs)) at 1.
  rewrite generate_all_exists_app; [done|apply path_exists_ensure_dir|auto].
Qed.

(** The loop, when the directory is missing and cannot be made. *)
Lemma generate_all_Raise evs w :
  evs ≠ [] →
  path_exists (str "events") w = false →
  make_dirs env (length (opened w)) (str "events") = false →
  generate_all env evs w = (Raise OSError, w).
Proof.
  destruct evs as [|e evs]; [done|]. intros _ Hex Hmk.
  cbn [generate_all]. by rewrite generate_ics_file_Raise.
Qed.

(** The loop ends in one of these two ways when the handler takes what
    the writes raise. *)
Lemma generate_all_cases evs w :
  (∀ k path, handled (open_write env k path) = true) →
  generate_all env evs w
  = (Ok (), match evs with [] => w | _ :: _ => write_all env evs (ensure_dir w) end)
  ∨ (generate_all env evs w = (Raise OSError, w)
     ∧ evs ≠ []
     ∧ path_exists (str "events") w = false
     ∧ make_dirs env (length (opened w)) (str "events") = false).
Proof.
  intros Hh. destruct evs as [|e evs]; [by left|].
  destruct (path_exists (str "events") w) eqn:Hex;
    [left; apply generate_all_Ok; auto|].
  destruct (make_dirs env (length (opened w)) (str "events")) eqn:Hmk;
    [left; apply generate_all_Ok; auto|].
  right. split; [by apply generate_all_Raise|done].
Qed.

(** The loop, once the directory is there, whatever the writes do: the
    files of the first [k] events have been opened, all of them when no
    exception goes up. *)
Lemma generate_all_exists_prefix evs w :
  path_exists (str "events") w = true →
  ∃ k, (generate_all env evs w).2 = write_all env (take k evs) w
       ∧ (evs ≠ [] → k ≠ 0%nat)
       ∧ ((generate_all env evs w).1 = Ok () → take k evs = evs).
Proof.
  revert w. induction evs as [|e evs IH]; intros w Hex.
  - exists 0%nat. done.
  - cbn [generate_all]. rewrite generate_ics_file_ready by (by left).
    rewrite ensure_dir_id by done.
    destruct (handled (open_write env (length (opened w)) (event_path e))) eqn:Hh.
    + rewrite write_file_handled by done.
      destruct (IH (after_write env (event_path e) (calendar_of e) w))
        as (k & Hw & _ & Hok); [by apply path_exists_after_write|].
      exists (S k). cbn [take]. rewrite write_all_cons.
      split; [done|]. split; [done|]. intros Hr. by rewrite Hok.
    + destruct (write_file_unhandled _ (calendar_of e) _ Hh) as (x & _ & _ & ->).
      exists 1%nat. done.
Qed.

(** The loop, whatever happens: the world it leaves. *)
Lemma generate_all_prefix evs w :
  ∃ k, (generate_all env evs w).2
       = match take k evs with
         | [] => w
         | _ :: _ => write_all env (take k evs) (ensure_dir w)
         end
       ∧ ((generate_all env evs w).1 = Ok () → take k evs = evs).
Proof.
  destruct evs as [|e evs]; [by exists 0%nat|].
  destruct (path_exists (str "events") w) eqn:Hex;
    [|destruct (make_dirs env (length (opened w)) (str "events")) eqn:Hmk].
  1,2: rewrite generate_all_ready by auto;
    destruct (generate_all_exists_prefix (e :: evs) (ensure_dir w)
                (path_exists_ensure_dir w)) as (k & Hw & Hk & Hok);
    exists k; split; [|done];
    rewrite Hw; destruct k as [|k]; [by destruct Hk|done].
  exists 0%nat. by rewrite generate_all_Raise.
Qed.

(** A path at which no event is written, or at which every [open] raises,
    keeps what it held. *)
Lemma files_write_all_kept evs w path :
  (∀ i e, evs !! i = Some e → event_path e = path →
          ∃ x, open_write env (length (opened w) + i) path = OpenRaises x) →
  files (write_all env evs w) !! path = files w !! path.
Proof.
  revert w. induction evs as [|e evs IH]; intros w Hfail; [done|].
  rewrite write_all_cons, IH.
  - simpl. destruct (decide (event_path e = path)) as [Heq|Hne].
    + destruct (Hfail 0%nat e eq_refl Heq) as [x Hx].
      rewrite Nat.add_0_r, <- Heq in Hx. by rewrite Hx.
    + destruct (open_write _ _ _); [|done|]; by rewrite lookup_insert_ne.
  - intros i e' Hi Hp. specialize (Hfail (S i) e' Hi Hp).
    simpl. rewrite length_app. simpl.
    by replace (length (opened w) + 1 + i)%nat with (length (opened w) + S i)%nat by lia.
Qed.

Lemma files_write_all_other evs w path :
  path ∉ event_path <$> evs →
  files (write_all env evs w) !! path = files w !! path.
Proof.
  intros Hnot. apply files_write_all_kept. intros i e Hi Hp.
  exfalso. apply Hnot. apply list_elem_of_fmap. exists e. split; [done|].
  by apply list_elem_of_lookup_2 in Hi.
Qed.

Lemma dom_files_write_all evs w : dom (files w) ⊆ dom (files (write_all env evs w)).
Proof.
  revert w. induction evs as [|e evs IH]; intros w; [done|].
  rewrite write_all_cons. etrans; [|apply IH]. simpl.
  destruct (open_write _ _ _); [|done|]; rewrite dom_insert;
    apply union_subseteq_r.
Qed.

(** When every write succeeds, every event has a calendar at its path. *)
Lemma files_write_all_complete evs w e :
  (∀ k path, open_write env k path = Written) →
  e ∈ evs →
  ∃ c, files (write_all env evs w) !! event_path e = Some (Complete c).
Proof.
  intros Hok. revert w. induction evs as [|e' evs IH] using rev_ind;
    intros w Hin; [by apply elem_of_nil in Hin|].
  rewrite write_all_app. change (write_all env [e'] ?w0)
    with (after_write env (event_path e') (calendar_of e') w0).
  simpl. rewrite Hok.
  apply elem_of_app in Hin as [Hin| ->%list_elem_of_singleton].
  - destruct (decide (event_path e' = event_path e)) as [->|Hne].
    + rewrite lookup_insert_eq. eauto.
    + rewrite lookup_insert_ne by done. by apply IH.
  - rewrite lookup_insert_eq. eauto.
Qed.

(** The parts of the world the loop leaves alone or only adds to. *)
Lemma generate_all_footprint evs w :
  let w' := (generate_all env evs w).2 in
  requested w' = requested w
  ∧ dom (files w) ⊆ dom (files w')
  ∧ dirs w ⊆ dirs w'
  ∧ dirs w' ⊆ dirs w ∪ {[ str "events" ]}
  ∧ (∀ path, path ∉ event_path <$> evs → files w' !! path = files w !! path).
Proof.
  intros w'. destruct (generate_all_prefix evs w) as (k & Hw & _).
  subst w'. rewrite Hw. clear Hw.
  assert (Hsub : ∀ path, path ∉ event_path <$> evs →
                         path ∉ event_path <$> take k evs).
  { intros path Hnot Hin. apply Hnot.
    apply list_elem_of_fmap in Hin as (e & -> & He).
    apply list_elem_of_fmap. exists e. split; [done|].
    rewrite <- (take_drop k evs). apply elem_of_app. by left. }
  destruct (take k evs) as [|e written] eqn:Et.
  - split; [done|]. split; [done|]. split; [done|].
    split; [apply union_subseteq_l|done].
  - destruct (disk_ensure_dir w) as (Hreq & _ & Hfiles).
    rewrite requested_write_all, dirs_write_all, Hreq.
    split; [done|]. split; [rewrite <- Hfiles; apply dom_files_write_all|].
    assert (Hd : dirs w ⊆ dirs (ensure_dir w)
                 ∧ dirs (ensure_dir w) ⊆ dirs w ∪ {[ str "events" ]}).
    { unfold ensure_dir. destruct (path_exists _ _); simpl.
      - split; [done|apply union_subseteq_l].
      - split; [apply union_subseteq_l|done]. }
    split; [apply Hd|]. split; [apply Hd|].
    intros path Hnot. rewrite files_write_all_other by auto. by rewrite Hfiles.
Qed.
End EmitFacts.

(** ** The run *)

Section CrawlFacts.
Context {U : UnicodeDB} {D : DateLib} {P : Platform}.
Variable env : environment.

(** Line 145: the run stops when the base page cannot be fetched. *)
Lemma main_stops w :
  http_get env (length (requested w)) base_url = None →
  main env w = (Ok [], log_request base_url w).
Proof. intros Hget. unfold main, requests_get. by rewrite Hget. Qed.

(** Line 147: the parse of the base page raises. *)
Lemma main_rejected w e :
  http_get env (length (requested w)) base_url = Some (Raise e) →
  main env w = (Raise e, log_request base_url w).
Proof. intros Hget. unfold main, requests_get. by rewrite Hget. Qed.

(** The run once the base page has been fetched and parsed: the pages are
    asked for inside [scrape_page], the base page first, until one raises;
    when none does, the events gathered are written out. *)
Lemma main_continues w soup :
  http_get env (length (requested w)) base_url = Some (Ok soup) →
  let n := length (requested w) in
  let pages := merge_sort str_le (elements (page_links soup)) in
  let outcomes := page_outcomes env n (base_url :: pages) in
  main env w
  = match gather outcomes with
    | Raise e =>
        (Raise e,
         log_requests (base_url :: take (reached outcomes) (base_url :: pages)) w)
    | Ok [] => (Ok [], log_requests (base_url :: base_url :: pages) w)
    | Ok all_events =>
        match generate_all env all_events
                (log_requests (base_url :: base_url :: pages) w) with
        | (Ok _, w') => (Ok all_events, w')
        | (Raise e, w') => (Raise e, w')
        end
    end.
Proof.
  intros Hget n pages outcomes. unfold main, requests_get. rewrite Hget.
  rewrite scrape_page_eq. subst outcomes. rewrite page_outcomes_cons.
  assert (Hlen : length (requested (log_request base_url w)) = S n)
    by (simpl; rewrite length_app; simpl; lia).
  rewrite Hlen.
  destruct (page_outcome env (S n) base_url) as [evs|e] eqn:E0; [|done].
  set (w2 := log_request base_url (log_request base_url w)).
  assert (Hloop :
    (if decide (page_links soup = ∅) then (Ok ([] ++ evs), w2)
     else scrape_pages env pages ([] ++ evs) w2)
    = (evs' ← gather (page_outcomes env (S n) pages); Ok (evs ++ evs'),
       log_requests (take (reached (page_outcomes env (S n) pages)) pages) w2)).
  { assert (Hpages : scrape_pages env pages ([] ++ evs) w2
      = (evs' ← gather (page_outcomes env (S n) pages); Ok (evs ++ evs'),
         log_requests (take (reached (page_outcomes env (S n) pages)) pages) w2)).
    { rewrite scrape_pages_eq
        by (subst w2; simpl; rewrite !length_app; simpl; lia).
      replace (pred (length (requested w2))) with (S n)
        by (subst w2; simpl; rewrite !length_app; simpl; lia).
      done. }
    destruct (decide (page_links soup = ∅)) as [Hempty|_]; [|done].
    rewrite <- Hpages. subst pages. by rewrite Hempty, elements_empty. }
  fold pages. rewrite Hloop.
  cbn [gather reached]. cbn [mbind result_bind].
  destruct (gather (page_outcomes env (S n) pages)) as [evs'|e] eqn:Eg;
    cbn [mbind result_bind]; [|done].
  rewrite (gather_Ok_reached _ _ Eg), length_page_outcomes, firstn_all.
  change (log_requests pages w2) with (log_requests (base_url :: base_url :: pages) w).
  by destruct (evs ++ evs').
Qed.

(** How a run ends when the handler of line 40 takes what the writes
    raise: it stops on line 145 or 176, or an exception goes up before
    anything is written, or the events gathered are written. *)
Lemma main_cases w :
  (∀ k path, handled (open_write env k path) = true) →
  (∃ urls, main env w = (Ok [], log_requests urls w))
  ∨ (∃ e urls, main env w = (Raise e, log_requests urls w))
  ∨ ∃ evs urls,
      evs ≠ []
      ∧ main env w = (Ok evs, write_all env evs (ensure_dir (log_requests urls w))).
Proof.
  intros Hh.
  destruct (http_get env (length (requested w)) base_url) as [[soup|e]|] eqn:Hget.
  - rewrite (main_continues w soup Hget).
    destruct (gather _) as [[|ev evs]|e].
    + left. eauto.
    + destruct (generate_all_cases env (ev :: evs)
                  (log_requests
                     (base_url :: base_url
                        :: merge_sort str_le (elements (page_links soup))) w) Hh)
        as [->|(-> & _)].
      * right; right. eexists (ev :: evs), _. split; [done|reflexivity].
      * right; left. eauto.
    + right; left. eauto.
  - right; left. exists e, [base_url]. by apply main_rejected.
  - left. exists [base_url]. by apply main_stops.
Qed.

(** The world a run leaves, however it ends: the requests made, and the
    files of the events [written], which are all the events gathered
    when the run ends without an exception. *)
Lemma main_world w :
  ∃ urls written,
    (main env w).2
    = match written with
      | [] => log_requests urls w
      | _ :: _ => write_all env written (ensure_dir (log_requests urls w))
      end
    ∧ ∀ events, (main env w).1 = Ok events → written = events.
Proof.
  destruct (http_get env (length (requested w)) base_url) as [[soup|e]|] eqn:Hget.
  - rewrite (main_continues w soup Hget).
    destruct (gather _) as [[|ev evs]|e].
    + eexists _, []. split; [done|]. by intros events [= <-].
    + set (w3 := log_requests
                   (base_url :: base_url
                      :: merge_sort str_le (elements (page_links soup))) w).
      destruct (generate_all_prefix env (ev :: evs) w3) as (k & Hw & Hok).
      destruct (generate_all env (ev :: evs) w3) as [[[]|e] w4] eqn:Eg;
        cbn [fst snd] in *.
      * eexists _, (take k (ev :: evs)). split; [exact Hw|].
        intros events [= <-]. by apply Hok.
      * eexists _, (take k (ev :: evs)). split; [exact Hw|]. done.
    + eexists _, []. split; [done|]. done.
  - rewrite (main_rejected w e Hget). eexists [base_url], []. done.
  - rewrite (main_stops w Hget). eexists [base_url], []. split; [done|].
    by intros events [= <-].
Qed.
End CrawlFacts.

(** A page link is longer than the base URL it starts with. *)
Lemma page_links_not_base soup : base_url ∉ page_links soup.
Proof.
  unfold page_links. rewrite elem_of_foldl_add_page_link.
  intros [?%not_elem_of_empty|(link & href & _ & _ & Hs & Heq)]; [done|].
  destruct href as [|c href]; [discriminate|].
  apply (f_equal length) in Heq. rewrite length_app in Heq. simpl in Heq. lia.
Qed.

Lemma str_leb_total a b : str_leb a b = true ∨ str_leb b a = true.
Proof.
  revert b. induction a as [|x a IH]; intros [|y b]; simpl; auto.
  destruct (decide (x = y)) as [->|Hne].
  - rewrite decide_True by done. apply IH.
  - rewrite decide_False by done.
    destruct (N.ltb_spec x y), (N.ltb_spec y x); auto. lia.
Qed.

Lemma str_le_total : Total str_le.
Proof. intros a b. apply str_leb_total. Qed.

(** The pages are visited in increasing order, each once, whatever the
    order of the anchors in the document. *)
Lemma sorted_page_links soup :
  let pages := merge_sort str_le (elements (page_links soup)) in
  Sorted str_le pages ∧ NoDup pages ∧ ∀ url, url ∈ pages ↔ url ∈ page_links soup.
Proof.
  intros pages. pose proof str_le_total as Htotal.
  split; [apply (Sorted_merge_sort str_le)|]. split.
  - unfold pages. rewrite merge_sort_Permutation. apply NoDup_elements.
  - intros url. unfold pages. by rewrite merge_sort_Permutation, elem_of_elements.
Qed.

Lemma sorted_page_links_not_base soup :
  base_url ∉ merge_sort str_le (elements (page_links soup)).
Proof.
  rewrite merge_sort_Permutation, elem_of_elements. apply page_links_not_base.
Qed.

(** The pager of the sample listing names page 2 twice and has one link
    that is no page link; the anchor outside the pager does not count. *)
Lemma first_page_links :
  merge_sort str_le (elements (page_links first_page)) = [page_1_url; page_2_url].
Proof. vm_compute. reflexivity. Qed.

Lemma path_exists_log_requests path urls w :
  path_exists path (log_requests urls w) = path_exists path w.
Proof.
  unfold path_exists.
  by destruct (disk_log_requests urls w) as (_ & -> & ->).
Qed.

Lemma reached_cons {A} (o : result A) rest :
  ∃ k, reached (o :: rest) = S k ∧ (k ≤ length rest)%nat
       ∧ (is_Ok o → k = reached rest).
Proof.
  destruct o as [a|e]; simpl.
  - exists (reached rest). split; [done|]. split; [apply reached_le|done].
  - exists 0%nat. split; [done|]. split; [lia|]. by intros [a ?].
Qed.

Section RequestFacts.
Context {U : UnicodeDB} {D : DateLib} {P : Platform}.
Variable env : environment.

(** The requests of a run whose base page was fetched and parsed. *)
Lemma main_requested w soup :
  http_get env (length (requested w)) base_url = Some (Ok soup) →
  let pages := merge_sort str_le (elements (page_links soup)) in
  let outcomes := page_outcomes env (length (requested w)) (base_url :: pages) in
  requested (main env w).2
  = requested w ++ base_url :: take (reached outcomes) (base_url :: pages)
  ∧ (is_Ok (main env w).1 → is_Ok (gather outcomes)).
Proof.
  intros Hget pages outcomes. rewrite (main_continues env w soup Hget).
  fold pages outcomes.
  destruct (gather outcomes) as [evs|e] eqn:Eg.
  - rewrite (gather_Ok_reached _ _ Eg). subst outcomes.
    rewrite length_page_outcomes, firstn_all.
    split; [|by intros _; exists evs].
    destruct evs as [|ev evs]; [cbn [snd]; by rewrite requested_log_requests|].
    destruct (generate_all_footprint env (ev :: evs)
                (log_requests (base_url :: base_url :: pages) w)) as (Hreq & _).
    destruct (generate_all env (ev :: evs) _) as [[[]|e] w4]; cbn [snd] in *;
      by rewrite Hreq, requested_log_requests.
  - cbn [fst snd]. split; [by rewrite requested_log_requests|]. by intros [evs ?].
Qed.

(** The disk after a run whose pages gave the events [evs]. *)
Lemma main_gathered w soup evs :
  http_get env (length (requested w)) base_url = Some (Ok soup) →
  let pages := merge_sort str_le (elements (page_links soup)) in
  gather (page_outcomes env (length (requested w)) (base_url :: pages)) = Ok evs →
  (∀ k path, handled (open_write env k path) = true) →
  evs = []
  ∨ path_exists (str "events") w = true
  ∨ make_dirs env (length (opened w)) (str "events") = true →
  main env w
  = (Ok evs,
     match evs with
     | [] => log_requests (base_url :: base_url :: pages) w
     | _ :: _ =>
         write_all env evs
           (ensure_dir (log_requests (base_url :: base_url :: pages) w))
     end).
Proof.
  intros Hget pages Hg Hh Hready. rewrite (main_continues env w soup Hget).
  fold pages. rewrite Hg. destruct evs as [|ev evs]; [done|].
  rewrite generate_all_Ok; [done|done|].
  rewrite path_exists_log_requests.
  destruct (disk_log_requests (base_url :: base_url :: pages) w) as (-> & _).
  destruct Hready as [?|[?|?]]; auto.
Qed.

(** When an exception goes up from a page, nothing has been written. *)
Lemma main_raised w soup e :
  http_get env (length (requested w)) base_url = Some (Ok soup) →
  let pages := merge_sort str_le (elements (page_links soup)) in
  gather (page_outcomes env (length (requested w)) (base_url :: pages)) = Raise e →
  (main env w).1 = Raise e
  ∧ opened (main env w).2 = opened w
  ∧ dirs (main env w).2 = dirs w
  ∧ files (main env w).2 = files w.
Proof.
  intros Hget pages Hg. rewrite (main_continues env w soup Hget).
  fold pages. rewrite Hg. cbn [fst snd].
  by destruct (disk_log_requests
                 (base_url :: take (reached (page_outcomes env (length (requested w))
                                               (base_url :: pages)))
                               (base_url :: pages)) w) as (-> & -> & ->).
Qed.
End RequestFacts.

(** C5, as the code has it: when the request of [main] for the base page
    fails, the run stops: it gathers no event, asks for nothing else and
    leaves the disk as it was.  Otherwise the pages are asked for inside
    [scrape_page] (the base page once more, then the sorted page links); a
    page whose request fails counts for no events and the others for
    theirs.  When no exception goes up from a page and the directory is
    there or can be made, the run ends with those events, one file is
    opened per event (provided the handler of line 40 takes what the
    writes raise), and when the writes succeed each event has its calendar;
    when an exception goes up from a page, it ends the run and nothing is
    written. *)
Theorem C5_fetch_failures `{UnicodeDB} `{DateLib} `{Platform}
    (env : environment) (w : world) :
  let n := length (requested w) in
  (http_get env n base_url = None →
     main env w = (Ok [], log_request base_url w)
     ∧ requested (main env w).2 = requested w ++ [base_url]
     ∧ opened (main env w).2 = opened w
     ∧ files (main env w).2 = files w)
  ∧ (∀ soup,
       http_get env n base_url = Some (Ok soup) →
       let pages := merge_sort str_le (elements (page_links soup)) in
       let outcomes :=
         imap (λ i url,
                 match http_get env (S n + i) url with
                 | None => Ok []
                 | Some content => page ← content; scrape_soup page
                 end)
           (base_url :: pages) in
       (∀ events,
          gather outcomes = Ok events →
          (∀ k path, handled (open_write env k path) = true) →
          events = []
          ∨ path_exists (str "events") w = true
          ∨ make_dirs env (length (opened w)) (str "events") = true →
          (main env w).1 = Ok events
          ∧ requested (main env w).2
            = requested w ++ base_url :: base_url :: pages
          ∧ opened (main env w).2 = opened w ++ map event_path events
          ∧ ((∀ k path, open_write env k path = Written) →
             ∀ e, e ∈ events →
                  ∃ c, files (main env w).2 !! event_path e
                       = Some (Complete c)))
       ∧ (∀ e, gather outcomes = Raise e →
               (main env w).1 = Raise e
               ∧ opened (main env w).2 = opened w
               ∧ files (main env w).2 = files w)).
Proof.
  intros n. split.
  - intros Hget. by rewrite (main_stops env w Hget).
  - intros soup Hget pages outcomes.
    change outcomes with (page_outcomes env n (base_url :: pages)). split.
    + intros events Hg Hh Hready.
      rewrite (main_gathered env w soup events Hget Hg Hh Hready). cbn [fst snd].
      fold pages.
      destruct (disk_log_requests (base_url :: base_url :: pages) w)
        as (Hop & Hdirs & Hfiles).
      pose proof (requested_log_requests (base_url :: base_url :: pages) w) as Hreq.
      destruct events as [|ev events]; cbn beta iota.
      * rewrite Hreq, Hop. split; [done|]. split; [done|].
        split; [by rewrite app_nil_r|]. by intros _ e ?%elem_of_nil.
      * destruct (disk_ensure_dir (log_requests (base_url :: base_url :: pages) w))
          as (Hreq' & Hop' & _).
        rewrite requested_write_all, opened_write_all, Hreq', Hop', Hreq, Hop.
        split; [done|]. split; [done|]. split; [done|].
        intros Hok e He. by apply files_write_all_complete.
    + intros e Hg.
      destruct (main_raised env w soup e Hget Hg) as (? & ? & _ & ?). done.
Qed.

(** With the first sub-page down, the events of the base page and of the
    other sub-page are gathered and written. *)
Lemma C5_sub_page_down :
  http_get (env_fail_at 2) 0 base_url = Some (Ok first_page)
  ∧ http_get (env_fail_at 2) 2 page_1_url = None
  ∧ (main (U:=ascii_db) (D:=iso_datelib) (P:=posix) (env_fail_at 2)
       fresh_world).1
    = Ok [concert_event; jazz_event; jazz_event]
  ∧ opened (main (U:=ascii_db) (D:=iso_datelib) (P:=posix) (env_fail_at 2)
              fresh_world).2
    = ([] ++ map (event_path (U:=ascii_db) (P:=posix))
               [concert_event; jazz_event; jazz_event]).
Proof.
  assert (Hget : http_get (env_fail_at 2) 0 base_url = Some (Ok first_page))
    by (vm_compute; reflexivity).
  destruct (proj1 (proj2 (C5_fetch_failures (H:=ascii_db) (H0:=iso_datelib)
                            (H1:=posix) (env_fail_at 2) fresh_world)
                     first_page Hget)
              [concert_event; jazz_event; jazz_event])
    as (Hev & _ & Hop & _).
  - vm_compute. reflexivity.
  - intros k path. reflexivity.
  - right; right. reflexivity.
  - split; [exact Hget|]. split; [vm_compute; reflexivity|].
    split; [exact Hev|exact Hop].
Defined.

(** C5 as the claim words it fails for the request [scrape_page] makes for
    the base page: it fails here, and the run still writes the files of the
    events of the two sub-pages. *)
Lemma C5_base_page_failure_not_fatal :
  http_get (env_fail_at 1) 1 base_url = None
  ∧ requested (main (U:=ascii_db) (D:=iso_datelib) (P:=posix) (env_fail_at 1)
                 fresh_world).2 !! 1%nat = Some base_url
  ∧ opened (main (U:=ascii_db) (D:=iso_datelib) (P:=posix) (env_fail_at 1)
              fresh_world).2
    = [str "events/No-Title-Found.ics"; str "events/Jazz-Night.ics"]
  ∧ files (main (U:=ascii_db) (D:=iso_datelib) (P:=posix) (env_fail_at 1)
             fresh_world).2 !! str "events/Jazz-Night.ics"
    = Some (Complete (calendar_of jazz_event)).
Proof. repeat split; vm_compute; reflexivity. Qed.

(** With the site down, nothing is written. *)
Lemma C5_site_down :
  main (U:=ascii_db) (D:=iso_datelib) (P:=posix) env_down fresh_world
  = (Ok [], log_request base_url fresh_world).
Proof. by apply main_stops. Qed.

(** C10, as the code has it: once the request of [main] for the base page
    has succeeded and its body has been parsed, the run asks for the base
    URL a second time, inside [scrape_page], and then for the sorted page
    links in turn, all of them unless an exception ends the run; none of
    them is the base URL: the base URL is fetched exactly twice.  When
    that second request fails, [scrape_page] returns no events, the run
    goes on through the page links, and the events gathered, all from
    those pages, are written out (provided the directory is there or can
    be made and the handler of line 40 takes what the writes raise). *)
Theorem C10_base_fetched_twice `{UnicodeDB} `{DateLib} `{Platform}
    (env : environment) (w : world) (soup : node) :
  http_get env (length (requested w)) base_url = Some (Ok soup) →
  let n := length (requested w) in
  let pages := merge_sort str_le (elements (page_links soup)) in
  (∃ k, requested (main env w).2
        = requested w ++ [base_url; base_url] ++ take k pages
        ∧ (is_Ok (main env w).1 → take k pages = pages))
  ∧ (base_url ∉ pages)
  ∧ (http_get env (S n) base_url = None →
     scrape_page env base_url (log_request base_url w)
     = (Ok [], log_request base_url (log_request base_url w))
     ∧ ∀ events,
         gather (imap (λ i url,
                         match http_get env (S (S n) + i) url with
                         | None => Ok []
                         | Some content => page ← content; scrape_soup page
                         end)
                   pages) = Ok events →
         (∀ k path, handled (open_write env k path) = true) →
         events = []
         ∨ path_exists (str "events") w = true
         ∨ make_dirs env (length (opened w)) (str "events") = true →
         (main env w).1 = Ok events
         ∧ requested (main env w).2
           = requested w ++ [base_url; base_url] ++ pages
         ∧ opened (main env w).2 = opened w ++ map event_path events).
Proof.
  intros Hget n pages.
  destruct (main_requested env w soup Hget) as (Hreq & Hok).
  fold n pages in Hreq, Hok.
  split; [|split; [apply sorted_page_links_not_base|]].
  - rewrite page_outcomes_cons in Hreq, Hok.
    destruct (reached_cons (page_outcome env (S n) base_url)
                (page_outcomes env (S n) pages)) as (k & Hk & _ & Hkok).
    rewrite Hk in Hreq. exists k. split; [exact Hreq|].
    intros Hmain. destruct (Hok Hmain) as [evs Hg].
    pose proof (gather_Ok_reached _ _ Hg) as Hall.
    rewrite Hk in Hall. simpl in Hall. rewrite length_page_outcomes in Hall.
    injection Hall as ->. apply firstn_all.
  - intros Hsecond.
    assert (Hbase : page_outcome env (S n) base_url = Ok [])
      by (unfold page_outcome; by rewrite Hsecond).
    split.
    + rewrite scrape_page_eq.
      replace (length (requested (log_request base_url w))) with (S n)
        by (simpl; rewrite length_app; simpl; lia).
      by rewrite Hbase.
    + intros events Hg Hh Hready.
      assert (Hg' : gather (page_outcomes env n (base_url :: pages)) = Ok events).
      { rewrite page_outcomes_cons, Hbase. cbn [gather]. cbn [mbind result_bind].
        change (page_outcomes env (S n) pages) with
          (imap (λ i url, page_outcome env (S (S n) + i) url) pages).
        unfold page_outcome. rewrite Hg. done. }
      rewrite (main_gathered env w soup events Hget Hg' Hh Hready). cbn [fst snd].
      fold pages.
      destruct (disk_log_requests (base_url :: base_url :: pages) w) as (Hop & _).
      pose proof (requested_log_requests (base_url :: base_url :: pages) w) as Hr.
      destruct events as [|ev events]; cbn beta iota.
      * rewrite Hr, Hop. split; [done|]. split; [done|]. by rewrite app_nil_r.
      * destruct (disk_ensure_dir (log_requests (base_url :: base_url :: pages) w))
          as (Hreq' & Hop' & _).
        by rewrite requested_write_all, opened_write_all, Hreq', Hop', Hr, Hop.
Qed.

(** C10 as the claim words it fails when the site is down: the base URL is
    then asked for once, by [main], and the run stops there. *)
Lemma C10_fetched_once_when_down :
  requested (main (U:=ascii_db) (D:=iso_datelib) (P:=posix) env_down
               fresh_world).2
  = [base_url].
Proof. vm_compute. reflexivity. Qed.

(** The second request for the base page fails: its two events are
    missing, those of the two sub-pages are gathered and written. *)
Lemma C10_second_fetch_fails :
  http_get (env_fail_at 1) 0 base_url = Some (Ok first_page)
  ∧ http_get (env_fail_at 1) 1 base_url = None
  ∧ (∃ k, requested (main (U:=ascii_db) (D:=iso_datelib) (P:=posix)
                       (env_fail_at 1) fresh_world).2
          = [] ++ [base_url; base_url] ++ take k [page_1_url; page_2_url])
  ∧ (main (U:=ascii_db) (D:=iso_datelib) (P:=posix) (env_fail_at 1)
       fresh_world).1
    = Ok [event_of (U:=ascii_db) item_anonymous
            {| civil := {| year := 2025; month := 7; day := 4; hour := 9;
                           minute := 0; second := 0; microsecond := 0 |};
               tz := Some {| zone := str "America/Chicago";
                             utcoffset := -300 |} |};
          jazz_event].
Proof.
  assert (Hget : http_get (env_fail_at 1) 0 base_url = Some (Ok first_page))
    by (vm_compute; reflexivity).
  destruct (C10_base_fetched_twice (H:=ascii_db) (H0:=iso_datelib) (H1:=posix)
              (env_fail_at 1) fresh_world first_page Hget)
    as ((k & Hreq & _) & _).
  split; [exact Hget|]. split; [vm_compute; reflexivity|].
  split; [|vm_compute; reflexivity].
  exists k. rewrite <- first_page_links. exact Hreq.
Defined.

(** * Further properties of the script *)

(** ** File names *)

Lemma lstrip_with_nil p s : Forall (λ c, p c = true) s → lstrip_with p s = [].
Proof. induction 1 as [|c s Hc _ IH]; simpl; [done|]. by rewrite Hc. Qed.

Lemma lstrip_with_id p s : Forall (λ c, p c = false) s → lstrip_with p s = s.
Proof. destruct 1 as [|c s Hc _]; simpl; [done|]. by rewrite Hc. Qed.

Lemma rstrip_with_id p s : Forall (λ c, p c = false) s → rstrip_with p s = s.
Proof.
  induction 1 as [|c s Hc _ IH]; simpl; [done|].
  rewrite IH, Hc. by destruct s.
Qed.

Lemma rstrip_with_nil_inv p s : rstrip_with p s = [] → Forall (λ c, p c = true) s.
Proof.
  induction s as [|c s IH]; simpl; [constructor|].
  destruct (rstrip_with p s) eqn:E; [|done].
  destruct (p c) eqn:Ec; [|done]. intros _. constructor; auto.
Qed.

Lemma re_sub_delete_id cls s :
  Forall (λ c, cls c = false) s → re_sub_delete cls s = s.
Proof.
  unfold re_sub_delete. induction 1 as [|c s Hc _ IH]; simpl; [done|].
  by rewrite Hc, IH.
Qed.

Lemma re_sub_runs_nil_inv cls r repl s :
  re_sub_runs cls (r :: repl) false s = [] → s = [].
Proof. destruct s as [|c s]; simpl; [done|]. by destruct (cls c). Qed.

Lemma no_double_hyphen_take n s : no_double_hyphen s → no_double_hyphen (take n s).
Proof.
  revert n. induction s as [|a s IH]; intros [|n]; simpl; try done.
  intros [Hab Hs]. split; [|by apply IH].
  destruct s as [|b s], n as [|n]; done.
Qed.

Section MoreFilenameFacts.
Context {U : UnicodeDB}.

(** What the second substitution leaves: hyphens, one at a time, between
    characters that are no separators. *)
Lemma re_sub_runs_separator in_run s :
  let out := re_sub_runs separator (str "-") in_run s in
  no_double_hyphen out
  ∧ (in_run = true → head out ≠ Some hyphen)
  ∧ Forall (λ c, c = hyphen ∨ separator c = false) out.
Proof.
  revert in_run. induction s as [|c s IH]; intros in_run; simpl; [done|].
  destruct (separator c) eqn:Ec.
  - destruct (IH true) as (Hnd & Hhead & Hall).
    destruct in_run; simpl; [done|].
    change (str "-" ++ ?l) with (hyphen :: l).
    split; [|split; [done|by constructor; [left|]]].
    split; [|done].
    destruct (re_sub_runs separator (str "-") true s) as [|b out]; [done|].
    intros [_ ->]. by apply Hhead.
  - destruct (IH false) as (Hnd & _ & Hall).
    assert (c ≠ hyphen) as Hc.
    { intros ->. unfold separator in Ec. by rewrite bool_decide_eq_true_2 in Ec. }
    split; [|split; [by intros _ [= ->]|by constructor; [right|]]].
    split; [|done].
    destruct (re_sub_runs separator (str "-") false s); [done|]. by intros [? _].
Qed.

(** A string of that shape is left as it is by the second substitution. *)
Lemma re_sub_runs_separator_id in_run s :
  no_double_hyphen s →
  Forall (λ c, c = hyphen ∨ separator c = false) s →
  (in_run = true → head s ≠ Some hyphen) →
  re_sub_runs separator (str "-") in_run s = s.
Proof.
  intros Hnd Hall. revert in_run Hnd.
  induction Hall as [|c s Hc Hall IH]; intros in_run Hnd Hhead; simpl; [done|].
  destruct Hnd as [Hcb Hnd]. destruct (separator c) eqn:Ec.
  - destruct Hc as [->|Hc]; [|congruence].
    destruct in_run; [by exfalso; apply Hhead|].
    change (str "-" ++ ?l) with (hyphen :: l). f_equal.
    apply IH; [done|]. intros _. destruct s as [|b s]; [done|].
    simpl. intros [= ->]. by apply Hcb.
  - f_equal. by apply IH.
Qed.

Lemma word_or_hyphen_valid c : word_or_hyphen c → invalid_char c = false.
Proof.
  unfold invalid_char, re_word. intros [->|[->| ->]]; apply negb_false_iff.
  - done.
  - by rewrite bool_decide_eq_true_2, orb_true_r.
  - by rewrite (bool_decide_eq_true_2 (hyphen = hyphen)), !orb_true_r.
Qed.

Lemma strip_nil s : strip s = [] ↔ Forall (λ c, isspace c = true) s.
Proof.
  unfold strip. split.
  - intros Hr%rstrip_with_nil_inv.
    destruct (lstrip_with_split isspace s) as (removed & Hs & Hrem & _).
    rewrite Hs. by apply Forall_app.
  - intros Hall. by rewrite lstrip_with_nil.
Qed.
End MoreFilenameFacts.

(** X1: the part of a file name before the extension has no two hyphens in
    a row, and every character of it that is not a hyphen is not
    whitespace. *)
Theorem filename_single_hyphens `{UnicodeDB} (t : pystr) :
  ∃ stem,
    ics_filename t = stem ++ str ".ics"
    ∧ no_double_hyphen stem
    ∧ Forall (λ c, c = hyphen ∨ isspace c = false) stem.
Proof.
  exists (take 50 (filename_base t)). split; [done|].
  destruct (re_sub_runs_separator false
              (strip (re_sub_delete invalid_char t))) as (Hnd & _ & Hall).
  split; [by apply no_double_hyphen_take|].
  apply Forall_take. eapply Forall_impl; [exact Hall|].
  intros c [->|Hc]; [by left|right].
  unfold separator in Hc. by apply orb_false_iff in Hc as [_ ?].
Qed.

(** X2: cleaning a title that is already clean changes nothing: the base
    of a file name is a fixed point of the cleaning, provided the hyphen is
    no whitespace character (as in Unicode). *)
Theorem filename_base_idempotent `{UnicodeDB} (t : pystr) :
  isspace hyphen = false →
  filename_base (filename_base t) = filename_base t.
Proof.
  intros Hhy.
  destruct (re_sub_runs_separator false
              (strip (re_sub_delete invalid_char t))) as (Hnd & _ & Hall).
  fold (filename_base t) in Hnd, Hall.
  assert (Hnospace : Forall (λ c, isspace c = false) (filename_base t)).
  { eapply Forall_impl; [exact Hall|]. intros c [->|Hc]; [done|].
    unfold separator in Hc. by apply orb_false_iff in Hc as [_ ?]. }
  unfold filename_base at 1.
  rewrite re_sub_delete_id.
  - unfold strip. rewrite lstrip_with_id, rstrip_with_id by done.
    by apply re_sub_runs_separator_id.
  - eapply Forall_impl; [apply filename_base_chars|]. apply word_or_hyphen_valid.
Qed.

Lemma filename_base_idempotent_ascii :
  isspace (UnicodeDB:=ascii_db) hyphen = false
  ∧ filename_base (U:=ascii_db) (filename_base (U:=ascii_db) (str " - Mardi  Gras! - "))
    = filename_base (U:=ascii_db) (str " - Mardi  Gras! - ").
Proof.
  split; [reflexivity|].
  apply (filename_base_idempotent (H:=ascii_db)). reflexivity.
Defined.

(** X3: the file name is the bare extension [.ics] exactly when every
    character of the title is whitespace or is removed by the first
    substitution. *)
Theorem filename_bare_extension `{UnicodeDB} (t : pystr) :
  ics_filename t = str ".ics"
  ↔ Forall (λ c, invalid_char c = true ∨ isspace c = true) t.
Proof.
  unfold ics_filename, filename_base. split.
  - intros Heq.
    assert (Hnil : take 50 (re_sub_runs separator (str "-") false
                     (strip (re_sub_delete invalid_char t))) = []).
    { apply (app_inv_tail (str ".ics")). by rewrite Heq. }
    assert (Hruns : re_sub_runs separator (str "-") false
                      (strip (re_sub_delete invalid_char t)) = []).
    { destruct (re_sub_runs _ _ _ _); [done|discriminate]. }
    apply re_sub_runs_nil_inv, strip_nil in Hruns.
    apply List.Forall_forall. intros c Hin.
    destruct (invalid_char c) eqn:Ei; [by left|right].
    rewrite List.Forall_forall in Hruns. apply Hruns.
    unfold re_sub_delete. apply List.filter_In. by rewrite Ei.
  - intros Hall.
    assert (Hsp : strip (re_sub_delete invalid_char t) = []).
    { apply strip_nil. apply List.Forall_forall. intros c Hin.
      apply List.filter_In in Hin as [Hin Hv]. apply negb_true_iff in Hv.
      rewrite List.Forall_forall in Hall. destruct (Hall c Hin); congruence. }
    by rewrite Hsp.
Qed.

Lemma filename_bare_extension_ascii :
  ics_filename (U:=ascii_db) (str " ?!  ... ") = str ".ics".
Proof.
  apply (proj2 (filename_bare_extension (H:=ascii_db) (str " ?!  ... "))).
  apply Forall_forall. intros c Hin.
  apply list_elem_of_In in Hin. vm_compute in Hin.
  repeat (destruct Hin as [<-|Hin]; [vm_compute; tauto|]). done.
Defined.

(** X4: a calendar file lies directly in the [events] directory, on POSIX
    and on Windows: its path is [events], the separator of the platform
    ([/] or [\]) and the file name, and the file name holds no [/], no
    [\] and no [:], whatever the title, provided these three are no
    alphanumeric characters (as in Unicode). *)
Theorem event_path_in_events `{UnicodeDB} `{Platform} (e : event) :
  isalnum slash = false →
  isalnum backslash = false →
  isalnum colon = false →
  event_path e
  = str "events"
    ++ [match family with Posix => slash | Windows => backslash end]
    ++ ics_filename (title e)
  ∧ (slash ∉ ics_filename (title e))
  ∧ (backslash ∉ ics_filename (title e))
  ∧ (colon ∉ ics_filename (title e)).
Proof.
  intros Hslash Hback Hcolon.
  assert (Hname : Forall (λ c, c ≠ slash ∧ c ≠ backslash ∧ c ≠ colon)
                    (ics_filename (title e))).
  { unfold ics_filename. apply Forall_app. split.
    - apply Forall_take. eapply Forall_impl; [apply filename_base_chars|].
      intros c Hc.
      repeat split; intros ->;
        (destruct Hc as [Hc|[Hc|Hc]]; [congruence|done|done]).
    - change (str ".ics") with [46; 105; 99; 115]%N. by repeat constructor. }
  split.
  - unfold event_path, path_join.
    destruct (ics_filename (title e)) as [|c name] eqn:E; [by destruct family|].
    apply Forall_cons in Hname as [(Hc1 & Hc2 & _) Hrest].
    assert (Hdrive : (c :: name) !! 1%nat ≠ Some colon).
    { destruct name as [|c' name]; [done|].
      apply Forall_cons in Hrest as [(_ & _ & Hc') _]. simpl. congruence. }
    destruct family; simpl.
    + by rewrite decide_False.
    + rewrite !decide_False by done. simpl.
      by rewrite bool_decide_eq_false_2.
  - rewrite Forall_forall in Hname.
    repeat split; intros Hin; by destruct (Hname _ Hin) as (? & ? & ?).
Qed.

(** On Windows. *)
Lemma event_path_concert :
  isalnum (UnicodeDB:=ascii_db) slash = false
  ∧ isalnum (UnicodeDB:=ascii_db) backslash = false
  ∧ isalnum (UnicodeDB:=ascii_db) colon = false
  ∧ event_path (U:=ascii_db) (P:=windows) concert_event
    = str "events" ++ [backslash]
      ++ ics_filename (U:=ascii_db) (title concert_event).
Proof.
  split; [reflexivity|]. split; [reflexivity|]. split; [reflexivity|].
  apply (event_path_in_events (H:=ascii_db) (H0:=windows) concert_event);
    reflexivity.
Defined.

(** On POSIX. *)
Lemma event_path_concert_posix :
  event_path (U:=ascii_db) (P:=posix) concert_event
  = str "events/Spring-Concert.ics".
Proof. vm_compute. reflexivity. Qed.

(** ** Files on disk *)

(** X5: writing out a batch of events makes no request, removes no file
    and no directory, makes no directory but [events], and opens the files
    of the events in turn: all of them when it ends without an exception,
    and [events] exists then.  When it ends with an exception although the
    handler of line 40 takes what the writes raise, the exception is the
    [OSError] of [os.makedirs] and nothing has been done. *)
Theorem generate_batch_footprint `{UnicodeDB} `{DateLib} `{Platform}
    (env : environment) (w : world) (evs : list event) :
  let w' := (generate_all env evs w).2 in
  requested w' = requested w
  ∧ (∃ k, opened w' = opened w ++ (event_path <$> take k evs)
          ∧ ((generate_all env evs w).1 = Ok () → take k evs = evs))
  ∧ dom (files w) ⊆ dom (files w')
  ∧ dirs w ⊆ dirs w'
  ∧ dirs w' ⊆ dirs w ∪ {[ str "events" ]}
  ∧ ((generate_all env evs w).1 = Ok () → evs ≠ [] →
     path_exists (str "events") w' = true)
  ∧ (∀ e, (generate_all env evs w).1 = Raise e →
          (∀ k path, handled (open_write env k path) = true) →
          e = OSError ∧ w' = w).
Proof.
  intros w'.
  destruct (generate_all_footprint env evs w) as (Hreq & Hdom & Hd1 & Hd2 & _).
  split; [exact Hreq|].
  destruct (generate_all_prefix env evs w) as (k & Hw & Hok).
  split; [|split; [exact Hdom|split; [exact Hd1|split; [exact Hd2|split]]]].
  - exists k. split; [|exact Hok]. subst w'. rewrite Hw.
    destruct (take k evs) as [|e written]; [by rewrite app_nil_r|].
    rewrite opened_write_all. by destruct (disk_ensure_dir w) as (_ & -> & _).
  - intros Hr Hne. subst w'. rewrite Hw, (Hok Hr).
    destruct evs as [|e evs]; [done|].
    apply path_exists_write_all, path_exists_ensure_dir.
  - intros e Hr Hh. subst w'.
    destruct (generate_all_cases env evs w Hh) as [Heq|(Heq & _)];
      rewrite Heq in *; cbn [fst snd] in *; [done|]. by injection Hr as <-.
Qed.

(** [events] is missing and cannot be made: the first call raises and no
    file is opened. *)
Lemma generate_batch_no_directory :
  (generate_all (U:=ascii_db) (P:=posix) env_no_directory
     [concert_event; jazz_event] fresh_world).1 = Raise OSError
  ∧ (generate_all (U:=ascii_db) (P:=posix) env_no_directory
       [concert_event; jazz_event] fresh_world).2 = fresh_world.
Proof.
  split; [vm_compute; reflexivity|].
  apply (generate_batch_footprint (H:=ascii_db) (H0:=iso_datelib) (H1:=posix)
           env_no_directory fresh_world [concert_event; jazz_event]) with OSError.
  - vm_compute. reflexivity.
  - intros k path. reflexivity.
Defined.

(** X6: of the events written to one path, the last one whose file is
    opened decides what the path holds.  When the loop reaches an event
    (the directory is there or can be made, and the handler takes what the
    writes before it raise) and [open] fails for every later event of the
    batch with its path, the path holds the calendar of that event, name,
    start, location and description, if its write succeeds, and what is
    left of an emptied file if its write raises. *)
Theorem generate_last_write_wins `{UnicodeDB} `{DateLib} `{Platform}
    (env : environment) (w : world) (before after : list event) (e : event) :
  path_exists (str "events") w = true
  ∨ make_dirs env (length (opened w)) (str "events") = true →
  (∀ i e', before !! i = Some e' →
     handled (open_write env (length (opened w) + i) (event_path e')) = true) →
  (∀ j e', after !! j = Some e' → event_path e' = event_path e →
     ∃ x, open_write env (length (opened w) + length before + 1 + j)
            (event_path e) = OpenRaises x) →
  let w' := (generate_all env (before ++ e :: after) w).2 in
  let outcome :=
    open_write env (length (opened w) + length before) (event_path e) in
  (outcome = Written →
   files w' !! event_path e = Some (Complete (calendar_of e)))
  ∧ (∀ x, outcome = WriteRaises x → files w' !! event_path e = Some Truncated).
Proof.
  intros Hready Hbefore Hlater w' outcome.
  set (w1 := write_all env before (ensure_dir w)).
  assert (Hlen : length (opened w1) = (length (opened w) + length before)%nat).
  { subst w1. rewrite opened_write_all, length_app, length_fmap.
    by destruct (disk_ensure_dir w) as (_ & -> & _). }
  assert (Hw' : ∃ k, w' = write_all env (take k after)
                            (after_write env (event_path e) (calendar_of e) w1)).
  { subst w'. rewrite generate_all_ready by (done || by destruct before).
    rewrite generate_all_exists_app; [|apply path_exists_ensure_dir|].
    - fold w1.
      destruct (generate_all_exists_prefix env (e :: after) w1)
        as (k & -> & Hk & _);
        [apply path_exists_write_all, path_exists_ensure_dir|].
      destruct k as [|k]; [by destruct Hk|]. by exists k.
    - intros i e' Hi. destruct (disk_ensure_dir w) as (_ & -> & _). eauto. }
  destruct Hw' as (k & ->).
  assert (Hkept : files (write_all env (take k after)
                           (after_write env (event_path e) (calendar_of e) w1))
                    !! event_path e
                  = files (after_write env (event_path e) (calendar_of e) w1)
                      !! event_path e).
  { apply files_write_all_kept. intros j e' Hj Hp.
    apply lookup_take_Some in Hj as [Hj _].
    simpl. rewrite length_app, Hlen. simpl. eauto. }
  rewrite Hkept. simpl. rewrite Hlen. fold outcome.
  split; [intros ->|intros x ->]; apply lookup_insert_eq.
Qed.

(** Two events with the same title: the calendar of the second replaces
    that of the first. *)
Lemma generate_same_title_overwrites :
  event_path (U:=ascii_db) (P:=posix) jazz_event
  = event_path (U:=ascii_db) (P:=posix)
      (event_of (U:=ascii_db) item_jazz (start_time concert_event))
  ∧ files (generate_all (U:=ascii_db) (P:=posix) env_up
             ([event_of (U:=ascii_db) item_jazz (start_time concert_event)]
              ++ jazz_event :: [concert_event]) fresh_world).2
      !! event_path (U:=ascii_db) (P:=posix) jazz_event
    = Some (Complete (calendar_of jazz_event)).
Proof.
  split; [vm_compute; reflexivity|].
  apply (generate_last_write_wins (H:=ascii_db) (H0:=iso_datelib) (H1:=posix)
           env_up fresh_world
           [event_of (U:=ascii_db) item_jazz (start_time concert_event)]
           [concert_event] jazz_event).
  - right. reflexivity.
  - intros i e' _. reflexivity.
  - intros [|[|j]] e' Hj Hp; [|done|done].
    injection Hj as <-. vm_compute in Hp. discriminate.
  - reflexivity.
Defined.

(** The disk is full at the second file: the path that held the calendar
    of the first event holds what is left of an emptied file. *)
Lemma generate_same_title_emptied :
  generate_all (U:=ascii_db) (P:=posix) env_second_write_fails
    [jazz_event; jazz_event] fresh_world
  = (Ok (),
     {| requested := [];
        opened := [str "events/Jazz-Night.ics"; str "events/Jazz-Night.ics"];
        dirs := {[ str "events" ]};
        files := {[ str "events/Jazz-Night.ics" := Truncated ]} |}).
Proof. vm_compute. reflexivity. Qed.

(** X7: a path that is the path of no event of the batch keeps what it
    held, and when every [open] fails the files are left as they were. *)
Theorem generate_other_files_kept `{UnicodeDB} `{DateLib} `{Platform}
    (env : environment) (w : world) (evs : list event) :
  (∀ path, path ∉ event_path <$> evs →
     files (generate_all env evs w).2 !! path = files w !! path)
  ∧ ((∀ k path, ∃ x, open_write env k path = OpenRaises x) →
     files (generate_all env evs w).2 = files w).
Proof.
  split.
  - by destruct (generate_all_footprint env evs w) as (_ & _ & _ & _ & Hother).
  - intros Hfail. destruct (generate_all_prefix env evs w) as (k & -> & _).
    destruct (take k evs) as [|e written]; [done|].
    apply map_eq. intros path. rewrite files_write_all_kept by auto.
    by destruct (disk_ensure_dir w) as (_ & _ & ->).
Qed.

(** [events] is a regular file: it is left alone, and so is the rest of
    the disk. *)
Lemma generate_other_files_kept_sample :
  files (generate_all (U:=ascii_db) (P:=posix) env_no_directory
           [concert_event; jazz_event] world_events_is_file).2
  = files world_events_is_file.
Proof.
  apply (proj2 (generate_other_files_kept (H:=ascii_db) (H0:=iso_datelib)
                  (H1:=posix) env_no_directory world_events_is_file
                  [concert_event; jazz_event])).
  intros k path. by exists OSError.
Defined.

(** X19: an exception of a write that the handler of line 40 does not take
    (it takes [IOError] only) ends the loop there: the files of the events
    before have been written, the file of the event is left as the failed
    write left it, and the files of the events after it are not opened. *)
Theorem generate_stops_at_unhandled `{UnicodeDB} `{DateLib} `{Platform}
    (env : environment) (w : world) (before after : list event) (e : event)
    (x : exn) :
  path_exists (str "events") w = true
  ∨ make_dirs env (length (opened w)) (str "events") = true →
  (∀ i e', before !! i = Some e' →
     handled (open_write env (length (opened w) + i) (event_path e')) = true) →
  raised (open_write env (length (opened w) + length before) (event_path e))
  = Raise x →
  catches [OSError] x = false →
  generate_all env (before ++ e :: after) w
  = (Raise x, write_all env (before ++ [e]) (ensure_dir w))
  ∧ opened (generate_all env (before ++ e :: after) w).2
    = opened w ++ (event_path <$> before) ++ [event_path e].
Proof.
  intros Hready Hbefore Hraised Hx.
  assert (Heq : generate_all env (before ++ e :: after) w
                = (Raise x, write_all env (before ++ [e]) (ensure_dir w))).
  { rewrite generate_all_ready by (done || by destruct before).
    rewrite generate_all_exists_app; [|apply path_exists_ensure_dir|].
    - set (w1 := write_all env before (ensure_dir w)).
      assert (Hlen : length (opened w1) = (length (opened w) + length before)%nat).
      { subst w1. rewrite opened_write_all, length_app, length_fmap.
        by destruct (disk_ensure_dir w) as (_ & -> & _). }
      cbn [generate_all]. rewrite generate_ics_file_ready
        by (left; apply path_exists_write_all, path_exists_ensure_dir).
      rewrite ensure_dir_id
        by (apply path_exists_write_all, path_exists_ensure_dir).
      unfold write_file. rewrite Hlen, Hraised, Hx.
      by rewrite write_all_app.
    - intros i e' Hi. destruct (disk_ensure_dir w) as (_ & -> & _). eauto. }
  split; [exact Heq|]. rewrite Heq. cbn [snd].
  rewrite opened_write_all, fmap_app.
  by destruct (disk_ensure_dir w) as (_ & -> & _).
Qed.

(** The text of the second of three files cannot be encoded: the run ends
    with the exception, the first file is complete, the second is not, and
    the third does not exist. *)
Lemma generate_stops_at_second_file :
  (main (U:=ascii_db) (D:=iso_datelib) (P:=posix) env_second_write_raises
     fresh_world).1 = Raise ValueError
  ∧ generate_all (U:=ascii_db) (P:=posix) env_second_write_raises
      ([concert_event] ++ jazz_event :: [concert_event]) fresh_world
    = (Raise ValueError,
       write_all (U:=ascii_db) (P:=posix) env_second_write_raises
         ([concert_event] ++ [jazz_event])
         (ensure_dir fresh_world)).
Proof.
  split; [vm_compute; reflexivity|].
  apply (generate_stops_at_unhandled (H:=ascii_db) (H0:=iso_datelib)
           (H1:=posix) env_second_write_raises fresh_world
           [concert_event] [concert_event] jazz_event ValueError).
  - right. reflexivity.
  - intros [|i] e' Hi; [reflexivity|done].
  - reflexivity.
  - reflexivity.
Defined.

(** ** Events of a page *)

Lemma startswith_inv pre s :
  startswith pre s = true → ∃ rest, s = pre ++ rest.
Proof.
  revert s. induction pre as [|a pre IH]; intros s; simpl; [by exists s|].
  destruct s as [|b s]; [done|].
  destruct (decide (a = b)) as [->|]; [|done].
  intros (rest & ->)%IH. by exists rest.
Qed.

Section PageFacts.
Context {U : UnicodeDB} {D : DateLib}.

(** The three ways a container is passed. *)
Lemma scrape_item_cases acc item :
  (kept item
   ∧ ∃ dt, normalize (extract_datetime_str item) = Ok dt
           ∧ scrape_item acc item = Ok (acc ++ [event_of item dt]))
  ∨ (passes item ∧ ¬ kept item ∧ scrape_item acc item = Ok acc)
  ∨ (¬ passes item
     ∧ ∃ e, normalize (extract_datetime_str item) = Raise e
            ∧ scrape_item acc item = Raise e).
Proof.
  rewrite scrape_item_unfold. unfold kept, passes.
  destruct (extract_datetime_str item) as [|c ds] eqn:Eds.
  - right; left. split; [by left|]. split; [|done]. by intros [? _].
  - destruct (normalize (c :: ds)) as [dt|e] eqn:En.
    + left. split; [split; [done|by exists dt]|]. by exists dt.
    + destruct (catches [ValueError; TypeError] e) eqn:Ec.
      * right; left. split; [by right|]. split; [|done]. by intros [_ [dt ?]].
      * right; right. split; [|by exists e].
        intros [?|Hc]; [done|]. congruence.
Qed.

Lemma scrape_items_passes items acc :
  Forall passes items →
  ∃ evs, scrape_items acc items = Ok (acc ++ evs)
         ∧ title <$> evs
           = (λ item, (extract_title_link item).1) <$> filter kept items.
Proof.
  intros Hall. revert acc.
  induction Hall as [|item items Hp _ IH]; intros acc.
  - exists []. by rewrite app_nil_r.
  - cbn [scrape_items].
    destruct (scrape_item_cases acc item)
      as [(Hk & dt & _ & ->)|[(_ & Hk & ->)|(Hnp & _)]]; [| |done];
      cbn [mbind result_bind].
    + destruct (IH (acc ++ [event_of item dt])) as (evs & -> & Ht).
      exists (event_of item dt :: evs). rewrite <- app_assoc. split; [done|].
      rewrite filter_cons_True by done. by rewrite !fmap_cons, Ht.
    + destruct (IH acc) as (evs & -> & Ht). exists evs. split; [done|].
      by rewrite filter_cons_False by done.
Qed.

Lemma scrape_items_Ok_passes items acc evs :
  scrape_items acc items = Ok evs → Forall passes items.
Proof.
  revert acc. induction items as [|item items IH]; intros acc; [done|].
  cbn [scrape_items].
  destruct (scrape_item_cases acc item)
    as [(Hk & dt & Hn & ->)|[(Hp & _ & ->)|(_ & e & _ & ->)]];
    cbn [mbind result_bind]; [| |done].
  - intros Hrest. constructor; [|by eapply IH].
    right. by rewrite Hn.
  - intros Hrest. constructor; [done|by eapply IH].
Qed.

Lemma scrape_items_first_raise before item after acc :
  Forall passes before → ¬ passes item →
  ∃ e, normalize (extract_datetime_str item) = Raise e
       ∧ scrape_items acc (before ++ item :: after) = Raise e.
Proof.
  intros Hb Hnp. rewrite scrape_items_app.
  destruct (scrape_items_passes before acc Hb) as (evs & -> & _).
  cbn [mbind result_bind scrape_items].
  destruct (scrape_item_cases (acc ++ evs) item)
    as [([_ [dt Hn]] & _)|[(? & _)|(_ & e & Hn & ->)]]; [|done|by exists e].
  exfalso. apply Hnp. right. by rewrite Hn.
Qed.

Lemma strip_trimmed s : trimmed (strip s).
Proof.
  unfold strip, trimmed.
  destruct (lstrip_with_split isspace s) as (_ & _ & _ & Hhead).
  destruct (rstrip_with_split isspace (lstrip_with isspace s))
    as (removed & Hs & _ & Hlast).
  split; [|done]. intros c Hc. apply Hhead. rewrite Hs.
  by destruct (rstrip_with isspace (lstrip_with isspace s)).
Qed.
End PageFacts.

(** X8: a page gives its events exactly when every container is passed
    without an exception going up (no timestamp, a timestamp that
    normalises, or one whose exception the handler of line 127 takes);
    otherwise the exception of the first container that is not passed goes
    up and the page gives nothing.  The events are then one per container
    whose timestamp normalises, in the order of the containers in the
    document: their titles are the titles of those containers, in that
    order, and there are never more events than containers. *)
Theorem scrape_soup_document_order `{UnicodeDB} `{DateLib} (soup : node) :
  (is_Ok (scrape_soup soup) ↔ Forall passes (event_containers soup))
  ∧ (∀ before item after,
       event_containers soup = before ++ item :: after →
       Forall passes before → ¬ passes item →
       ∃ e, normalize (extract_datetime_str item) = Raise e
            ∧ scrape_soup soup = Raise e)
  ∧ (∀ events,
       scrape_soup soup = Ok events →
       title <$> events
       = (λ item, (extract_title_link item).1)
           <$> filter kept (event_containers soup)
       ∧ length events = length (filter kept (event_containers soup))
       ∧ (length events ≤ length (event_containers soup))%nat).
Proof.
  rewrite scrape_soup_items. split; [split|split].
  - intros [evs Hevs]. by eapply scrape_items_Ok_passes.
  - intros Hall. destruct (scrape_items_passes _ [] Hall) as (evs & -> & _).
    by eexists.
  - intros before item after -> Hb Hnp. by apply scrape_items_first_raise.
  - intros events Hevs.
    destruct (scrape_items_passes _ [] (scrape_items_Ok_passes _ _ _ Hevs))
      as (evs & Heq & Ht).
    rewrite Hevs in Heq. injection Heq as ->. simpl.
    split; [exact Ht|].
    assert (Hlen : length evs = length (filter kept (event_containers soup))).
    { rewrite <- (length_fmap title), Ht. apply length_fmap. }
    split; [done|]. rewrite Hlen. apply length_filter.
Qed.

Lemma scrape_soup_document_order_sample :
  title <$> [concert_event; jazz_event]
  = (λ item, (extract_title_link (U:=ascii_db) item).1)
      <$> filter (kept (D:=iso_datelib)) (event_containers first_page).
Proof.
  apply (proj2 (proj2 (scrape_soup_document_order (H:=ascii_db)
                         (H0:=iso_datelib) first_page))).
  apply scrape_first_page.
Defined.

(** The page with the timestamp of the last day gives nothing, though two
    of its containers are good. *)
Lemma scrape_soup_last_day :
  scrape_soup (U:=ascii_db) (D:=iso_datelib) last_day_page = Raise OverflowError
  ∧ length (filter (kept (D:=iso_datelib)) (event_containers last_day_page))
    = 2%nat.
Proof. split; vm_compute; reflexivity. Qed.

(** X9: no event has a link that begins with [/]: an [href] that begins
    with [/] is put behind the origin of the site, and any other is kept. *)
Theorem event_link_not_root_relative `{UnicodeDB} `{DateLib}
    (soup : node) (events : list event) (e : event) :
  scrape_soup soup = Ok events → e ∈ events →
  startswith (str "/") (link e) = false.
Proof.
  intros Hs (item & _ & -> & _)%(elem_of_scrape_soup _ _ _ Hs).
  unfold event_of, extract_title_link; simpl.
  destruct (find (str "a") None item); [|done]. simpl.
  unfold resolve_href.
  destruct (startswith (str "/") (default [] _)) eqn:Es; [|done].
  reflexivity.
Qed.

Lemma event_link_not_root_relative_sample :
  startswith (str "/") (link concert_event) = false.
Proof.
  apply (event_link_not_root_relative (H:=ascii_db) (H0:=iso_datelib)
           first_page [concert_event; jazz_event] concert_event).
  - apply scrape_first_page.
  - apply list_elem_of_here.
Defined.

(** X10: the title of an event is the placeholder or a string with no
    whitespace at either end, and so is its location. *)
Theorem event_fields_trimmed `{UnicodeDB} `{DateLib}
    (soup : node) (events : list event) (e : event) :
  scrape_soup soup = Ok events → e ∈ events →
  (title e = str "No Title Found" ∨ trimmed (title e))
  ∧ (location e = str "No Location Found" ∨ trimmed (location e)).
Proof.
  intros Hs (item & _ & -> & _)%(elem_of_scrape_soup _ _ _ Hs).
  unfold event_of, extract_title_link, extract_location; simpl. split.
  - destruct (find (str "a") None item) as [a|]; [|by left]. right. simpl.
    destruct (find (str "span") _ a); apply strip_trimmed.
  - destruct (find (str "span") _ item); [right; apply strip_trimmed|by left].
Qed.

Lemma event_fields_trimmed_sample :
  (title jazz_event = str "No Title Found" ∨ trimmed (U:=ascii_db) (title jazz_event))
  ∧ (location jazz_event = str "No Location Found"
     ∨ trimmed (U:=ascii_db) (location jazz_event)).
Proof.
  apply (event_fields_trimmed (H:=ascii_db) (H0:=iso_datelib) first_page
           [concert_event; jazz_event]).
  - apply scrape_first_page.
  - apply list_elem_of_further, list_elem_of_here.
Defined.

(** X11: the calendar of an event carries a description exactly when the
    container has an anchor with a non-empty [href]; the description is
    then the fixed sentence followed by the link of the event. *)
Theorem description_iff_href `{UnicodeDB} `{DateLib}
    (item : node) (events_on_page : list event) (e : event) :
  scrape_item events_on_page item = Ok (events_on_page ++ [e]) →
  (description (calendar_of e) = None
   ↔ find (str "a") None item = None
     ∨ ∃ link_element, find (str "a") None item = Some link_element
         ∧ default [] (tag_attrs link_element !! str "href") = [])
  ∧ (∀ text, description (calendar_of e) = Some text →
             text = str "For more details, visit: " ++ link e).
Proof.
  intros (He & _)%scrape_item_snoc. split.
  - assert (Hdesc : description (calendar_of e) = None ↔ link e = []).
    { unfold calendar_of; simpl. by destruct (link e). }
    rewrite Hdesc, He. unfold event_of, extract_title_link; simpl.
    destruct (find (str "a") None item) as [a|]; simpl.
    + unfold resolve_href. split.
      * intros Hl. right. exists a. split; [done|].
        destruct (default [] (tag_attrs a !! str "href")) as [|c href]; [done|].
        destruct (startswith (str "/") (c :: href)); discriminate.
      * intros [?|(a' & [= <-] & ->)]; done.
    + split; [by left|done].
  - unfold calendar_of; simpl. destruct (link e); [done|]. by intros text [= <-].
Qed.

Lemma description_iff_href_sample :
  description (calendar_of concert_event)
  = Some (str "For more details, visit: " ++ link concert_event).
Proof.
  destruct (description_iff_href (H:=ascii_db) (H0:=iso_datelib)
              item_concert [] concert_event) as [_ Htext].
  - vm_compute. reflexivity.
  - destruct (description (calendar_of concert_event)) as [text|] eqn:Ed.
    + by rewrite (Htext text eq_refl).
    + vm_compute in Ed. discriminate.
Defined.

(** ** Requests and disk of a run *)

Lemma size_add_page_link acc link :
  (size (add_page_link acc link) ≤ S (size acc))%nat.
Proof.
  unfold add_page_link. destruct (tag_attrs link !! str "href") as [href|]; [|lia].
  destruct (_ && _); [|lia].
  destruct (decide (base_url ++ href ∈ acc)) as [Hin|Hin].
  - replace (acc ∪ {[base_url ++ href]}) with acc; [lia|].
    apply set_eq. intros x. rewrite elem_of_union, elem_of_singleton.
    split; [by left|by intros [?| ->]].
  - rewrite size_union, size_singleton; [lia|].
    intros x Hx ->%elem_of_singleton. done.
Qed.

Lemma size_foldl_add_page_link pager_items acc :
  (size (foldl add_page_link acc pager_items) ≤ size acc + length pager_items)%nat.
Proof.
  revert acc. induction pager_items as [|l ls IH]; intros acc; simpl; [lia|].
  etrans; [apply IH|]. pose proof (size_add_page_link acc l). lia.
Qed.

Lemma length_sorted_page_links soup :
  (length (merge_sort str_le (elements (page_links soup)))
   ≤ length (select_pager_links false soup))%nat.
Proof.
  rewrite merge_sort_Permutation.
  change (length (elements (page_links soup))) with (size (page_links soup)).
  unfold page_links.
  pose proof (size_foldl_add_page_link (select_pager_links false soup) ∅) as Hs.
  by rewrite size_empty in Hs.
Qed.

Lemma page_links_prefix soup url :
  url ∈ page_links soup → ∃ rest, url = base_url ++ str "?page=" ++ rest.
Proof.
  unfold page_links. rewrite elem_of_foldl_add_page_link.
  intros [?%not_elem_of_empty|(link & href & _ & _ & Hs & ->)]; [done|].
  apply startswith_inv in Hs as (rest & ->). by exists rest.
Qed.

(** X12: every page link is the URL of the listing followed by [?page=]
    and the rest of the [href]: the crawl never leaves the listing, and no
    page link is the base URL itself. *)
Theorem page_links_on_listing (soup : node) (url : pystr) :
  url ∈ page_links soup →
  (∃ rest,
      url = str "https://murphy.tulane.edu/events/upcoming-events?page=" ++ rest)
  ∧ url ≠ base_url.
Proof.
  intros Hin. split.
  - destruct (page_links_prefix soup url Hin) as (rest & ->). exists rest.
    by rewrite app_assoc.
  - intros ->. by apply (page_links_not_base soup).
Qed.

Lemma page_links_on_listing_sample :
  page_2_url ≠ base_url.
Proof.
  apply (page_links_on_listing first_page page_2_url).
  apply elem_of_elements. rewrite <- (merge_sort_Permutation str_le).
  rewrite first_page_links. apply list_elem_of_further, list_elem_of_here.
Defined.

Section GatherFacts.
Context {U : UnicodeDB} {D : DateLib} {P : Platform}.
Variable env : environment.

(** The events a run ends with are those its pages gave. *)
Lemma main_Ok_gathered w soup events :
  http_get env (length (requested w)) base_url = Some (Ok soup) →
  (main env w).1 = Ok events →
  gather (page_outcomes env (length (requested w))
            (base_url :: merge_sort str_le (elements (page_links soup))))
  = Ok events.
Proof.
  intros Hget. rewrite (main_continues env w soup Hget).
  destruct (gather _) as [[|ev evs]|e]; cbn [fst]; [done| |done].
  by destruct (generate_all env (ev :: evs) _) as [[[]|e] w4].
Qed.

(** A run that ends with events had its base page fetched and parsed. *)
Lemma main_Ok_fetched w events :
  (main env w).1 = Ok events → events ≠ [] →
  ∃ soup, http_get env (length (requested w)) base_url = Some (Ok soup).
Proof.
  destruct (http_get env (length (requested w)) base_url) as [[soup|e]|] eqn:Hget.
  - by exists soup.
  - by rewrite (main_rejected env w e Hget).
  - rewrite (main_stops env w Hget). by intros [= <-].
Qed.
End GatherFacts.

(** X13: the requests of a run.  The base URL alone when its first request
    fails or the parse of its body raises.  Otherwise the base URL twice
    and then the page links of the base page (each once, in increasing
    order), up to the first page that raises: all of them when the run
    ends without an exception.  Every URL asked for is the base URL or the
    base URL followed by [?page=...], and a run makes at most two requests
    more than the pager of the base page has anchors. *)
Theorem main_requests `{UnicodeDB} `{DateLib} `{Platform}
    (env : environment) (w : world) :
  ∃ new,
    requested (main env w).2 = requested w ++ new
    ∧ match http_get env (length (requested w)) base_url with
      | None | Some (Raise _) => new = [base_url]
      | Some (Ok soup) =>
          let pages := merge_sort str_le (elements (page_links soup)) in
          let outcomes :=
            imap (λ i url,
                    match http_get env (S (length (requested w)) + i) url with
                    | None => Ok []
                    | Some content => page ← content; scrape_soup page
                    end)
              (base_url :: pages) in
          new = base_url :: take (reached outcomes) (base_url :: pages)
          ∧ (is_Ok (gather outcomes) → new = base_url :: base_url :: pages)
          ∧ (is_Ok (main env w).1 → new = base_url :: base_url :: pages)
          ∧ Sorted str_le pages
          ∧ NoDup pages
          ∧ (∀ url, url ∈ pages ↔ url ∈ page_links soup)
          ∧ (2 ≤ length new)%nat
          ∧ (length new ≤ 2 + length (select_pager_links false soup))%nat
      end
    ∧ ∀ url, url ∈ new →
             url = base_url ∨ ∃ rest, url = base_url ++ str "?page=" ++ rest.
Proof.
  destruct (http_get env (length (requested w)) base_url) as [[soup|e]|] eqn:Hget.
  - destruct (main_requested env w soup Hget) as (Hreq & Hok).
    destruct (sorted_page_links soup) as (Hsorted & Hnodup & Hin).
    set (pages := merge_sort str_le (elements (page_links soup))) in *.
    set (outcomes := page_outcomes env (length (requested w)) (base_url :: pages))
      in *.
    exists (base_url :: take (reached outcomes) (base_url :: pages)).
    split; [exact Hreq|].
    assert (Hall : is_Ok (gather outcomes) →
                   base_url :: take (reached outcomes) (base_url :: pages)
                   = base_url :: base_url :: pages).
    { intros [evs Hg]. rewrite (gather_Ok_reached _ _ Hg). subst outcomes.
      by rewrite length_page_outcomes, firstn_all. }
    split.
    + cbn zeta. change (imap _ (base_url :: pages)) with outcomes.
      split; [done|]. split; [exact Hall|]. split; [by intros ?%Hok%Hall|].
      split; [exact Hsorted|]. split; [exact Hnodup|]. split; [exact Hin|].
      subst outcomes. rewrite page_outcomes_cons.
      destruct (reached_cons (page_outcome env (S (length (requested w))) base_url)
                  (page_outcomes env (S (length (requested w))) pages))
        as (k & -> & Hk & _).
      rewrite length_page_outcomes in Hk.
      pose proof (length_sorted_page_links soup) as Hlen. fold pages in Hlen.
      simpl. rewrite length_take. lia.
    + intros url [->|Hurl]%elem_of_cons; [by left|].
      apply subseteq_take in Hurl.
      apply elem_of_cons in Hurl as [->|Hurl]; [by left|].
      right. by apply (page_links_prefix soup), Hin.
  - exists [base_url]. rewrite (main_rejected env w e Hget). split; [done|].
    split; [done|]. intros url ->%list_elem_of_singleton. by left.
  - exists [base_url]. rewrite (main_stops env w Hget). split; [done|].
    split; [done|]. intros url ->%list_elem_of_singleton. by left.
Qed.

Lemma main_requests_sample :
  ∃ new,
    requested (main (U:=ascii_db) (D:=iso_datelib) (P:=posix) env_up
                 fresh_world).2
    = requested fresh_world ++ new
    ∧ (length new ≤ 2 + length (select_pager_links false first_page))%nat.
Proof.
  destruct (main_requests (H:=ascii_db) (H0:=iso_datelib) (H1:=posix) env_up
              fresh_world)
    as (new & Hreq & Hcase & _).
  exists new. split; [exact Hreq|].
  change (http_get env_up (length (requested fresh_world)) base_url)
    with (site base_url) in Hcase.
  replace (site base_url) with (Some (Ok first_page)) in Hcase
    by (vm_compute; reflexivity).
  destruct Hcase as (_ & _ & _ & _ & _ & _ & _ & Hlen). exact Hlen.
Defined.

(** The second page of the crawl has the timestamp of the last day: the
    run stops there and the third page is not asked for. *)
Lemma main_requests_stop_at_raise :
  main (U:=ascii_db) (D:=iso_datelib) (P:=posix)
    {| http_get := λ n url, if decide (n = 2%nat) then Some (Ok last_day_page)
                            else site url;
       make_dirs := λ _ _, true;
       open_write := λ _ _, Written |}
    fresh_world
  = (Raise OverflowError,
     log_requests [base_url; base_url; page_1_url] fresh_world).
Proof. vm_compute. reflexivity. Qed.

(** X14: what a run leaves on disk follows the events it ends with.  With
    no event it opens no file, writes none and makes no directory.  With
    at least one, [events] exists afterwards (it was there, as a directory
    or as anything else, or has been made: the only directory a run
    makes), and one file has been opened per event, in order.  When the
    run ends with an exception although the handler of line 40 takes what
    the writes raise, the disk is as it was. *)
Theorem main_disk_follows_events `{UnicodeDB} `{DateLib} `{Platform}
    (env : environment) (w : world) :
  (∀ events,
     (main env w).1 = Ok events →
     match events with
     | [] =>
         opened (main env w).2 = opened w
         ∧ files (main env w).2 = files w
         ∧ dirs (main env w).2 = dirs w
     | _ :: _ =>
         path_exists (str "events") (main env w).2 = true
         ∧ dirs (main env w).2
           = (if path_exists (str "events") w then dirs w
              else dirs w ∪ {[ str "events" ]})
         ∧ opened (main env w).2 = opened w ++ (event_path <$> events)
     end)
  ∧ (∀ e, (main env w).1 = Raise e →
          (∀ k path, handled (open_write env k path) = true) →
          opened (main env w).2 = opened w
          ∧ files (main env w).2 = files w
          ∧ dirs (main env w).2 = dirs w).
Proof.
  split.
  - intros events Hev.
    destruct (main_world env w) as (urls & written & Hw & Hwritten).
    rewrite (Hwritten events Hev) in Hw. rewrite Hw.
    destruct (disk_log_requests urls w) as (Hop & Hdirs & Hfiles).
    destruct events as [|ev events]; [done|].
    split; [apply path_exists_write_all, path_exists_ensure_dir|].
    rewrite dirs_write_all, opened_write_all.
    destruct (disk_ensure_dir (log_requests urls w)) as (_ & -> & _).
    rewrite Hop. split; [|done].
    unfold ensure_dir. rewrite path_exists_log_requests.
    destruct (path_exists (str "events") w); simpl; by rewrite Hdirs.
  - intros e Hr Hh.
    destruct (main_cases env w Hh)
      as [(urls & Heq)|[(e' & urls & Heq)|(evs & urls & _ & Heq)]];
      rewrite Heq in *; cbn [fst snd] in *; [| |done];
      by destruct (disk_log_requests urls w) as (-> & -> & ->).
Qed.

Lemma main_disk_follows_events_down :
  opened (main (U:=ascii_db) (D:=iso_datelib) (P:=posix) env_down
            fresh_world).2 = opened fresh_world
  ∧ files (main (U:=ascii_db) (D:=iso_datelib) (P:=posix) env_down
             fresh_world).2 = files fresh_world
  ∧ dirs (main (U:=ascii_db) (D:=iso_datelib) (P:=posix) env_down
            fresh_world).2 = dirs fresh_world.
Proof.
  apply (proj1 (main_disk_follows_events (H:=ascii_db) (H0:=iso_datelib)
                  (H1:=posix) env_down fresh_world) []).
  reflexivity.
Defined.

(** [events] is a regular file: the run makes no directory, and every
    [open] in it fails. *)
Lemma main_events_is_a_file :
  (main (U:=ascii_db) (D:=iso_datelib) (P:=posix) env_no_directory
     world_events_is_file).1
  = Ok [concert_event; jazz_event;
        event_of (U:=ascii_db) item_anonymous
          {| civil := {| year := 2025; month := 7; day := 4; hour := 9;
                         minute := 0; second := 0; microsecond := 0 |};
             tz := Some {| zone := str "America/Chicago";
                           utcoffset := -300 |} |};
        jazz_event]
  ∧ dirs (main (U:=ascii_db) (D:=iso_datelib) (P:=posix) env_no_directory
            world_events_is_file).2 = ∅
  ∧ files (main (U:=ascii_db) (D:=iso_datelib) (P:=posix) env_no_directory
             world_events_is_file).2 = files world_events_is_file.
Proof. repeat split; vm_compute; reflexivity. Qed.

(** [events] is missing and cannot be made: the run ends with the
    [OSError] of [os.makedirs] and writes nothing. *)
Lemma main_no_directory :
  (main (U:=ascii_db) (D:=iso_datelib) (P:=posix) env_no_directory
     fresh_world).1 = Raise OSError
  ∧ opened (main (U:=ascii_db) (D:=iso_datelib) (P:=posix) env_no_directory
              fresh_world).2 = []
  ∧ dirs (main (U:=ascii_db) (D:=iso_datelib) (P:=posix) env_no_directory
            fresh_world).2 = ∅.
Proof. repeat split; vm_compute; reflexivity. Qed.

(** X15: a run removes no file and leaves every path that is the path of
    no event as that path was; when the handler of line 40 takes what the
    writes raise, it leaves every path that is not the path of an event it
    ends with as that path was. *)
Theorem main_other_files_kept `{UnicodeDB} `{DateLib} `{Platform}
    (env : environment) (w : world) :
  dom (files w) ⊆ dom (files (main env w).2)
  ∧ (∀ path, (∀ e, event_path e ≠ path) →
             files (main env w).2 !! path = files w !! path)
  ∧ ((∀ k path, handled (open_write env k path) = true) →
     ∀ path,
       (∀ events, (main env w).1 = Ok events → path ∉ event_path <$> events) →
       files (main env w).2 !! path = files w !! path).
Proof.
  split; [|split].
  - destruct (main_world env w) as (urls & written & -> & _).
    destruct (disk_log_requests urls w) as (_ & _ & Hfiles).
    destruct written as [|ev written]; [by rewrite Hfiles|].
    etrans; [|apply dom_files_write_all].
    destruct (disk_ensure_dir (log_requests urls w)) as (_ & _ & ->).
    by rewrite Hfiles.
  - intros path Hnot.
    destruct (main_world env w) as (urls & written & -> & _).
    destruct (disk_log_requests urls w) as (_ & _ & Hfiles).
    destruct written as [|ev written]; [by rewrite Hfiles|].
    rewrite files_write_all_other.
    + destruct (disk_ensure_dir (log_requests urls w)) as (_ & _ & ->).
      by rewrite Hfiles.
    + intros (e & Hp & _)%list_elem_of_fmap. by apply (Hnot e).
  - intros Hh path Hnot.
    destruct (main_cases env w Hh)
      as [(urls & Heq)|[(e' & urls & Heq)|(evs & urls & _ & Heq)]];
      rewrite Heq in *; cbn [fst snd] in *;
      destruct (disk_log_requests urls w) as (_ & _ & Hfiles);
      [by rewrite Hfiles|by rewrite Hfiles|].
    rewrite files_write_all_other by (by apply Hnot).
    destruct (disk_ensure_dir (log_requests urls w)) as (_ & _ & ->).
    by rewrite Hfiles.
Qed.

(** [events] is a regular file: the run leaves it alone. *)
Lemma main_other_files_kept_sample :
  files (main (U:=ascii_db) (D:=iso_datelib) (P:=posix) env_no_directory
           world_events_is_file).2 !! str "events"
  = files world_events_is_file !! str "events".
Proof.
  apply (proj1 (proj2 (main_other_files_kept (H:=ascii_db) (H0:=iso_datelib)
                         (H1:=posix) env_no_directory world_events_is_file))).
  intros e Hp. unfold event_path, path_join in Hp. cbn [family posix] in Hp.
  destruct (ics_filename (title e)) as [|c name].
  - vm_compute in Hp. discriminate.
  - cbn [startswith] in Hp. destruct (decide (slash = c)) as [<-|_].
    + vm_compute in Hp. discriminate.
    + apply (f_equal length) in Hp. rewrite !length_app in Hp.
      vm_compute in Hp. lia.
Defined.

(** X16: every event a run ends with was read from a page that one of its
    requests, after the first, was served; its start time is aware, in
    America/Chicago, and its link does not begin with [/]. *)
Theorem main_events_from_pages `{UnicodeDB} `{DateLib} `{Platform}
    (env : environment) (w : world) (events : list event) (e : event) :
  (main env w).1 = Ok events → e ∈ events →
  ∃ k url page page_events,
    (length (requested w) < k)%nat
    ∧ requested (main env w).2 !! k = Some url
    ∧ http_get env k url = Some (Ok page)
    ∧ scrape_soup page = Ok page_events
    ∧ e ∈ page_events
    ∧ (∃ offset,
         tz_utcoffset (str "America/Chicago") (civil (start_time e)) = Ok offset
         ∧ tz (start_time e)
           = Some {| zone := str "America/Chicago"; utcoffset := offset |})
    ∧ startswith (str "/") (link e) = false.
Proof.
  intros Hev He.
  destruct (main_Ok_fetched env w events Hev) as (soup & Hget);
    [intros ->; by apply elem_of_nil in He|].
  pose proof (main_Ok_gathered env w soup events Hget Hev) as Hg.
  destruct (main_requested env w soup Hget) as (Hreq & _).
  rewrite (gather_Ok_reached _ _ Hg), length_page_outcomes, firstn_all in Hreq.
  destruct (gather_Ok_elem _ _ e Hg He) as (i & l & Hi & Hl).
  unfold page_outcomes in Hi. rewrite list_lookup_imap in Hi.
  destruct ((base_url :: merge_sort str_le (elements (page_links soup))) !! i)
    as [url|] eqn:Hurl; [|done].
  simpl in Hi. injection Hi as Hi. unfold page_outcome in Hi.
  destruct (http_get env (S (length (requested w) + i)) url)
    as [[page|x]|] eqn:Hpage; cbn [mbind result_bind] in Hi;
    [|done|injection Hi as <-; by apply elem_of_nil in Hl].
  exists (S (length (requested w) + i)), url, page, l.
  split; [lia|]. split.
  { rewrite Hreq, lookup_app_r by lia.
    replace (S (length (requested w) + i) - length (requested w))%nat
      with (S i) by lia.
    done. }
  split; [done|]. split; [done|]. split; [done|].
  destruct (elem_of_scrape_soup page l e Hi Hl) as (item & _ & Heq & _ & Hn).
  split.
  - apply normalize_Ok in Hn as (naive & offset & _ & _ & Hc & Ho & Ht).
    exists offset. by rewrite Hc.
  - rewrite Heq. unfold event_of, extract_title_link; simpl.
    destruct (find (str "a") None item); [|done]. simpl.
    unfold resolve_href.
    destruct (startswith (str "/") (default [] _)) eqn:Es; [|done].
    reflexivity.
Qed.

Lemma main_events_from_pages_sample :
  ∃ k url page page_events,
    http_get env_up k url = Some (Ok page)
    ∧ scrape_soup (U:=ascii_db) (D:=iso_datelib) page = Ok page_events
    ∧ concert_event ∈ page_events.
Proof.
  destruct (main_events_from_pages (H:=ascii_db) (H0:=iso_datelib) (H1:=posix)
              env_up fresh_world
              [concert_event; jazz_event;
               event_of (U:=ascii_db) item_anonymous
                 {| civil := {| year := 2025; month := 7; day := 4; hour := 9;
                                minute := 0; second := 0; microsecond := 0 |};
                    tz := Some {| zone := str "America/Chicago";
                                  utcoffset := -300 |} |};
               jazz_event]
              concert_event)
    as (k & url & page & page_events & _ & _ & Hget & Hs & Hin & _).
  - vm_compute. reflexivity.
  - apply list_elem_of_here.
  - exists k, url, page, page_events. split; [exact Hget|]. split; [exact Hs|exact Hin].
Defined.

(** ** Two more edges *)

(** X17: a timestamp that the parser reads as an aware datetime, one that
    names its own zone or offset, is not converted to Chicago time: the
    attempt to attach the zone raises a [ValueError], which the handler of
    line 127 takes, and the container gives no event. *)
Theorem aware_timestamp_dropped `{UnicodeDB} `{DateLib}
    (item : node) (dt : datetime) (events_on_page : list event) :
  dateutil_parse (rstrip_chars (str "Zz") (extract_datetime_str item)) = Ok dt →
  is_Some (tz dt) →
  normalize (extract_datetime_str item) = Raise ValueError
  ∧ scrape_item events_on_page item = Ok events_on_page.
Proof.
  intros Hparse [zone Hzone].
  assert (Hn : normalize (extract_datetime_str item) = Raise ValueError).
  { unfold normalize. rewrite Hparse. cbn [mbind result_bind].
    unfold localize. by rewrite Hzone. }
  split; [done|]. rewrite scrape_item_unfold, Hn.
  by destruct (extract_datetime_str item).
Qed.

Lemma aware_timestamp_dropped_sample :
  scrape_item (U:=ascii_db) (D:=offset_datelib) [concert_event] item_with_offset
  = Ok [concert_event].
Proof.
  refine (proj2 (aware_timestamp_dropped (H:=ascii_db) (H0:=offset_datelib)
                   item_with_offset
                   {| civil := {| year := 2025; month := 3; day := 10;
                                  hour := 19; minute := 30; second := 0;
                                  microsecond := 0 |};
                      tz := Some {| zone := str "UTC"; utcoffset := 0 |} |}
                   [concert_event] _ _)).
  - vm_compute. reflexivity.
  - simpl. eauto.
Defined.

(** X18: the path of a calendar file is at most 61 characters long, on
    POSIX and on Windows: the directory, the separator, 50 characters of
    the title and the extension. *)
Theorem event_path_length `{UnicodeDB} `{Platform} (e : event) :
  (length (event_path e) ≤ 61)%nat.
Proof.
  assert (Hname : (length (ics_filename (title e)) ≤ 54)%nat).
  { unfold ics_filename. rewrite length_app, length_take.
    change (length (str ".ics")) with 4%nat. lia. }
  unfold event_path, path_join.
  destruct family;
    [destruct (startswith _ _)|destruct (_ || _ || _)]; try lia;
    rewrite !length_app; change (length (str "events")) with 6%nat; simpl; lia.
Qed.
